(** * The Monte Carlo harness of the modified KPSS test

    A shallow embedding of [simulations/simulate_critical_values.py]: the three
    report functions, the command-line dispatch, and the NumPy operations they
    rely on.

    Conventions of the embedding.
    - Python floats are exact rationals ([Q]); rounding and NaN are not
      modelled.  Python integers are [Z].
    - The process state is a [world]: the global NumPy random state, the text
      written to standard output, and two ghost logs (the innovations drawn
      and the invocations of the replication loop) that only record.
    - A Python function is a computation [M A]: it takes the world, returns
      the world it leaves behind, and either a value or the exception raised.
    - The collaborators of the [nearkpss] package that are not among the
      sources are taken as parameters of [Section Harness]. *)

From Stdlib Require Import String ZArith QArith Qround Bool List Lia Lqa.
From Stdlib Require Import Permutation Sorted.
Import ListNotations.
Local Open Scope string_scope.
Local Open Scope list_scope.
Local Open Scope Q_scope.

(** ** Exceptions and results *)

(** [ConfigurationError] and [NumericError] are the collaborators' errors;
    [ValueError] and [IndexError] are raised by NumPy and by list indexing. *)
Inductive error : Type :=
| ConfigurationError
| NumericError
| ValueError
| IndexError.

Inductive result (A : Type) : Type :=
| Ok (a : A)
| Err (e : error).
Arguments Ok {A} a.
Arguments Err {A} e.

Definition result_bind {A B} (r : result A) (f : A -> result B) : result B :=
  match r with
  | Ok a => f a
  | Err e => Err e
  end.

(** ** NumPy: sorting, indexing and [np.percentile] *)

Fixpoint insert (x : Q) (l : list Q) : list Q :=
  match l with
  | [] => [x]
  | y :: l' => if Qle_bool x y then x :: l else y :: insert x l'
  end.

(** [np.sort]: the order statistics of an array. *)
Fixpoint np_sort (l : list Q) : list Q :=
  match l with
  | [] => []
  | x :: l' => insert x (np_sort l')
  end.

(** [arr[i]] with Python's negative indices; out of range raises. *)
Definition getitem {A} (arr : list A) (i : Z) : result A :=
  let n := Z.of_nat (length arr) in
  let j := if (i <? 0)%Z then (n + i)%Z else i in
  if (j <? 0)%Z then Err IndexError
  else match nth_error arr (Z.to_nat j) with
       | Some x => Ok x
       | None => Err IndexError
       end.

(** NumPy's [_get_indexes]: the neighbours of a virtual index, with the
    indices at or beyond the last one sent to [-1] and those below the first
    sent to [0]. *)
Definition get_indexes (virtual_index : Q) (values_count : Z) : Z * Z :=
  let previous_index := Qfloor virtual_index in
  let next_index := (previous_index + 1)%Z in
  let above_bounds := Qle_bool (inject_Z (values_count - 1)) virtual_index in
  let previous_index := if above_bounds then (-1)%Z else previous_index in
  let next_index := if above_bounds then (-1)%Z else next_index in
  let below_bounds := negb (Qle_bool 0 virtual_index) in
  let previous_index := if below_bounds then 0%Z else previous_index in
  let next_index := if below_bounds then 0%Z else next_index in
  (previous_index, next_index).

(** NumPy's [_lerp]: [a + (b - a) * t], computed from [b] when [t >= 0.5]. *)
Definition lerp (a b t : Q) : Q :=
  let diff_b_a := b - a in
  if Qle_bool 0.5 t then b - diff_b_a * (1 - t) else a + diff_b_a * t.

(** NumPy's [_quantile] with the default method ["linear"]: the virtual
    index is [(n - 1) * q]. *)
Definition quantile_unchecked (arr : list Q) (q : Q) : result Q :=
  let values_count := Z.of_nat (length arr) in
  let virtual_index := inject_Z (values_count - 1) * q in
  let '(previous_index, next_index) := get_indexes virtual_index values_count in
  let sorted := np_sort arr in
  result_bind (getitem sorted previous_index) (fun previous =>
  result_bind (getitem sorted next_index) (fun next =>
  let gamma := virtual_index - inject_Z previous_index in
  Ok (lerp previous next gamma))).

(** [np.quantile(arr, q)]: [q] must lie in [0, 1]. *)
Definition np_quantile (arr : list Q) (q : Q) : result Q :=
  if Qle_bool 0 q && Qle_bool q 1 then quantile_unchecked arr q
  else Err ValueError.

(** [np.percentile(arr, q)]: the quantile at [q / 100]. *)
Definition np_percentile (arr : list Q) (q : Q) : result Q :=
  np_quantile arr (q / 100).

(** [np.mean(stats > cv)]: the fraction of the sample above [cv]. *)
Definition exceeds (cv x : Q) : bool := negb (Qle_bool x cv).

Definition rejection_rate (stats : list Q) (cv : Q) : Q :=
  inject_Z (Z.of_nat (length (filter (exceeds cv) stats)))
  / inject_Z (Z.of_nat (length stats)).

(** [np.arange(start, stop)] and [range(n)]. *)
Definition np_arange (start stop : Z) : list Q :=
  map (fun i => inject_Z (start + Z.of_nat i)) (seq 0 (Z.to_nat (stop - start))).

Definition range (n : Z) : list Z :=
  map Z.of_nat (seq 0 (Z.to_nat n)).

(** ** The specification's reading of a percentile

    Linear interpolation between order statistics, in the specification's
    words: with [xs] the sample in increasing order and [h = (n - 1) q], the
    [q]-quantile is [xs[j] + (h - j) (xs[j+1] - xs[j])] for [j] the integer
    part of [h]; at [h = n - 1] it is the largest value.  The [p]-th
    percentile is the quantile at [p / 100]. *)
Definition interpolates_at (xs : list Q) (q : Q) (v : Q) : Prop :=
  let n := length xs in
  let h := inject_Z (Z.of_nat n - 1) * q in
  let j := Z.to_nat (Qfloor h) in
  exists lo hi,
    nth_error xs j = Some lo /\
    nth_error xs (Nat.min (S j) (n - 1)) = Some hi /\
    v == lo + (h - inject_Z (Qfloor h)) * (hi - lo).

Definition interpolates (xs : list Q) (p : Q) (v : Q) : Prop :=
  interpolates_at xs (p / 100) v.

Definition order_statistics (sample xs : list Q) : Prop :=
  Permutation sample xs /\ StronglySorted Qle xs.


(** ** The data model *)

(** The arguments of one invocation of the replication loop. *)
Record SimulationConfig : Type := {
  cfg_c : Q;
  cfg_c_bar : Q;
  cfg_alpha : Q;
  cfg_detrend : string;
  cfg_n_replications : Z;
  cfg_n_steps : Z;
  cfg_seed : Z
}.

(** What [modified_kpss_test] returns, as far as the harness reads it. *)
Record TestResult : Type := {
  statistic : Q;
  reject_5pct : bool
}.

(** A line of standard output.  Fixed text is kept; a formatted row keeps
    the values it shows, not their layout. *)
Inductive line : Type :=
| Text (s : string)
| Rule (ch : string) (width : nat)
| Header (columns : list string)
| Setting (label : string) (value : Z)
| AlphaHeading (alpha : Q)
| CvRow (c_bar cv_1 cv_5 cv_10 : Q)
| RateRow (c rate : Q)
| SizeRow (theta size_1 size_2 size_3 : Q).

(** ** The random stream *)

(** The global [np.random] state: the seed it was last set to and the number
    of innovations drawn since. *)
Record RandomState : Type := {
  rs_seed : Z;
  rs_pos : nat
}.

(** A collaborator that reads the global random stream: it returns, raises,
    or draws the next N(0,1) innovation and continues. *)
Inductive Draws (A : Type) : Type :=
| Return (a : A)
| Raise (e : error)
| Randn (k : Q -> Draws A).
Arguments Return {A} a.
Arguments Raise {A} e.
Arguments Randn {A} k.

(** ** The process state and its computations *)

Record world : Type := {
  rng : RandomState;
  drawn : list Q;                 (* ghost: innovations drawn, newest first *)
  stdout : list line;
  calls : list SimulationConfig   (* ghost: replication loops invoked *)
}.

Definition M (A : Type) : Type := world -> world * result A.

Definition ret {A} (a : A) : M A := fun w => (w, Ok a).

Definition raise {A} (e : error) : M A := fun w => (w, Err e).

Definition bind {A B} (m : M A) (f : A -> M B) : M B :=
  fun w =>
    match m w with
    | (w', Ok a) => f a w'
    | (w', Err e) => (w', Err e)
    end.

Notation "x <- m ;; k" := (bind m (fun x => k))
  (at level 61, m at next level, right associativity).
Notation "' pat <- m ;; k" := (bind m (fun x => match x with pat => k end))
  (at level 61, pat pattern, m at next level, right associativity).
Notation "m ;; k" := (bind m (fun _ => k))
  (at level 61, right associativity).

Definition lift {A} (r : result A) : M A := fun w => (w, r).

Definition print (l : line) : M unit :=
  fun w =>
    ({| rng := rng w; drawn := drawn w; stdout := stdout w ++ [l];
        calls := calls w |}, Ok tt).

Fixpoint print_all (ls : list line) : M unit :=
  match ls with
  | [] => ret tt
  | l :: ls' => print l ;; print_all ls'
  end.

(** [np.random.seed(s)]. *)
Definition np_random_seed (s : Z) : M unit :=
  fun w =>
    ({| rng := {| rs_seed := s; rs_pos := 0 |}; drawn := drawn w;
        stdout := stdout w; calls := calls w |}, Ok tt).

Definition log_call (cfg : SimulationConfig) : M unit :=
  fun w =>
    ({| rng := rng w; drawn := drawn w; stdout := stdout w;
        calls := calls w ++ [cfg] |}, Ok tt).

(** [for x in xs: body], with the variables the body updates as [s]. *)
Fixpoint for_in {A S} (xs : list A) (body : A -> S -> M S) (s : S) : M S :=
  match xs with
  | [] => ret s
  | x :: xs' => s' <- body x s ;; for_in xs' body s'
  end.

(** The innovations a computation drew: those logged between two worlds, in
    the order they were drawn. *)
Definition drawn_since (w w' : world) : list Q :=
  rev (firstn (length (drawn w') - length (drawn w)) (drawn w')).

(** ** Constants of the three reports *)

Module CriticalValues.
Definition n_replications : Z := 10000.
Definition n_steps : Z := 5000.
Definition seed : Z := 42.
Definition c_bar_values : list Q := [5; 7; 10; 13; 15; 20].
End CriticalValues.

Module PowerCurves.
Definition c_values : list Q := np_arange 0 11.
Definition c_bar : Q := 10.0.
Definition nominal_power : Q := 0.50.
Definition n_replications : Z := 5000.
Definition n_steps : Z := 2000.
Definition alpha_values : list Q := [1; 2; 3].
End PowerCurves.

Module Table1.
Definition T : Z := 200.
Definition c : Q := 10.0.
Definition c_bar : Q := 10.0.
Definition n_sims : Z := 1000.
Definition theta_values : list Q := [0.0; 0.6; -0.6].
Definition alpha_values : list Q := [1; 3; 5].
End Table1.


(** ** Sample collaborators

    Small stand-ins for the collaborators of the [nearkpss] package, on which
    the harness can be run. *)

Definition initial_world : world :=
  {| rng := {| rs_seed := 0; rs_pos := 0 |}; drawn := []; stdout := [];
     calls := [] |}.

(** A stream that counts up from its seed. *)
Definition counting_stream (s : Z) (i : nat) : Q := inject_Z (s + Z.of_nat i).

(** A generator that draws one innovation and keeps the parameters of the
    cell in the path. *)
Definition one_draw_ma (T : Z) (c theta alpha mu sigma : Q)
  : Draws (list Q) :=
  Randn (fun x => Return [x; theta; alpha]).

(** A test whose statistic is the first value of the path and that rejects
    from 992 on. *)
Definition threshold_test (y : list Q) (c_bar : Q) (compute_pvalue : bool)
  : Draws TestResult :=
  Return {| statistic := hd 0 y; reject_5pct := Qle_bool 992 (hd 0 y) |}.

(** The same test, degenerate on the path of value 45 of the cell
    [theta = 0.6], [alpha = 3]. *)
Definition degenerate_test (y : list Q) (c_bar : Q) (compute_pvalue : bool)
  : Draws TestResult :=
  match y with
  | [x; theta; alpha] =>
      if Qeq_bool x 45 && Qeq_bool theta 0.6 && Qeq_bool alpha 3
      then Raise NumericError
      else threshold_test y c_bar compute_pvalue
  | _ => threshold_test y c_bar compute_pvalue
  end.

(** A generator that draws one innovation and returns it alone: its path
    does not depend on [theta] or [alpha]. *)
Definition plain_draw_ma (T : Z) (c theta alpha mu sigma : Q)
  : Draws (list Q) :=
  Randn (fun x => Return [x]).


(** A generator and an evaluator for the replication loop: one innovation,
    returned as the statistic. *)
Definition one_draw_path (cfg : SimulationConfig) : Draws (list Q) :=
  Randn (fun x => Return [x]).

Definition first_value (cfg : SimulationConfig) (path : list Q) : Draws Q :=
  Return (hd 0 path).


(** ** The harness *)

Section Harness.

(** The N(0,1) innovations the global generator yields once seeded:
    [randn_stream s i] is draw number [i] after [np.random.seed(s)]. *)
Variable randn_stream : Z -> nat -> Q.

(** [nearkpss.utils.simulate_near_integrated_ma(T, c, theta, alpha, mu,
    sigma)]: one sample path. *)
Variable simulate_near_integrated_ma :
  Z -> Q -> Q -> Q -> Q -> Q -> Draws (list Q).

(** [nearkpss.modified_kpss_test(y, c_bar, compute_pvalue)]. *)
Variable modified_kpss_test : list Q -> Q -> bool -> Draws TestResult.

(** The generator and evaluator paired by the replication loop. *)
Variable dgp_generator : SimulationConfig -> Draws (list Q).
Variable statistic_evaluator : SimulationConfig -> list Q -> Draws Q.

(** The grid value at which the power curves are calibrated. *)
Variable reference_c : Q.

(** Running a collaborator against a random state: the innovations it
    drew, the state it leaves, and its outcome. *)
Fixpoint exec {A} (p : Draws A) (g : RandomState)
  : list Q * RandomState * result A :=
  match p with
  | Return a => ([], g, Ok a)
  | Raise e => ([], g, Err e)
  | Randn k =>
      let x := randn_stream (rs_seed g) (rs_pos g) in
      let '(xs, g', r) :=
        exec (k x) {| rs_seed := rs_seed g; rs_pos := S (rs_pos g) |} in
      (x :: xs, g', r)
  end.

Definition call {A} (p : Draws A) : M A :=
  fun w =>
    let '(xs, g, r) := exec p (rng w) in
    ({| rng := g; drawn := rev xs ++ drawn w; stdout := stdout w;
        calls := calls w |}, r).

(** *** The replication loop *)

Definition valid_config (cfg : SimulationConfig) : bool :=
  (0 <? cfg_n_replications cfg)%Z && (0 <? cfg_n_steps cfg)%Z
  && (String.eqb (cfg_detrend cfg) "c" || String.eqb (cfg_detrend cfg) "ct").

Fixpoint replications (n : nat) (cfg : SimulationConfig) : M (list Q) :=
  match n with
  | O => ret []
  | S n' =>
      path <- call (dgp_generator cfg) ;;
      stat <- call (statistic_evaluator cfg path) ;;
      stats <- replications n' cfg ;;
      ret (stat :: stats)
  end.

(** Modelled from the spec: [nearkpss.critical_values.simulate_critical_values]
    is not among the sources.  The replication loop of the specification:
    the configuration is checked, the stream is put under the fixed seed,
    and the generator and evaluator are paired [n_replications] times on
    that one stream, the statistics being collected in order; a
    collaborator's error is not caught. *)
Definition simulate_critical_values (cfg : SimulationConfig) : M (list Q) :=
  log_call cfg ;;
  if valid_config cfg then
    np_random_seed (cfg_seed cfg) ;;
    replications (Z.to_nat (cfg_n_replications cfg)) cfg
  else raise ConfigurationError.

(** *** The power and size calibrator *)

Definition sweep_point (c_bar alpha : Q) (detrend : string)
    (n_replications n_steps seed : Z) (cv : Q) (c : Q) (rates : list Q)
  : M (list Q) :=
  stats <- simulate_critical_values
             {| cfg_c := c; cfg_c_bar := c_bar; cfg_alpha := alpha;
                cfg_detrend := detrend; cfg_n_replications := n_replications;
                cfg_n_steps := n_steps; cfg_seed := seed |} ;;
  ret (rates ++ [rejection_rate stats cv]).

(** Modelled from the spec: [nearkpss.critical_values.simulate_power_and_size]
    is not among the sources.  Calibration: the replication loop is run at
    the reference grid value and [cv] is the [(1 - nominal)]-quantile of
    that sample.  Sweep: for each grid value the loop is run again under
    the same seed and the fraction of statistics above [cv] is reported,
    aligned to [c_values]. *)
Definition simulate_power_and_size (c_values : list Q)
    (c_bar alpha nominal_power : Q) (detrend : string)
    (n_replications n_steps seed : Z) : M (list Q * Q) :=
  reference <- simulate_critical_values
                 {| cfg_c := reference_c; cfg_c_bar := c_bar;
                    cfg_alpha := alpha; cfg_detrend := detrend;
                    cfg_n_replications := n_replications;
                    cfg_n_steps := n_steps; cfg_seed := seed |} ;;
  cv <- lift (np_quantile reference (1 - nominal_power)) ;;
  rates <- for_in c_values
             (sweep_point c_bar alpha detrend n_replications n_steps seed cv)
             [] ;;
  ret (rates, cv).

(** *** [simulate_asymptotic_critical_values] *)

(** The critical value extractor: the three [np.percentile] calls. *)
Definition critical_value_extractor (stats : list Q) : result (Q * Q * Q) :=
  result_bind (np_percentile stats 99) (fun cv_1 =>
  result_bind (np_percentile stats 95) (fun cv_5 =>
  result_bind (np_percentile stats 90) (fun cv_10 =>
  Ok (cv_1, cv_5, cv_10)))).

Definition critical_value_row (detrend : string) (c_bar : Q) (_ : unit)
  : M unit :=
  stats <- simulate_critical_values
             {| cfg_c := c_bar; cfg_c_bar := c_bar; cfg_alpha := 1.0;
                cfg_detrend := detrend;
                cfg_n_replications := CriticalValues.n_replications;
                cfg_n_steps := CriticalValues.n_steps;
                cfg_seed := CriticalValues.seed |} ;;
  '(cv_1, cv_5, cv_10) <- lift (critical_value_extractor stats) ;;
  print (CvRow c_bar cv_1 cv_5 cv_10).

Definition simulate_asymptotic_critical_values : M unit :=
  print_all
    [ Rule "=" 70;
      Text "Simulating Asymptotic Critical Values for Modified KPSS Test";
      Text "Harris, Leybourne, and McCabe (2007)";
      Rule "=" 70;
      Text "";
      Text "Settings:";
      Setting "Replications" CriticalValues.n_replications;
      Setting "Steps" CriticalValues.n_steps;
      Setting "Seed" CriticalValues.seed;
      Text "";
      Rule "-" 70;
      Text "LEVEL CASE (Intercept only, detrend='c')";
      Rule "-" 70;
      Text "";
      Text "At the boundary c = c̄, the distribution is standard KPSS.";
      Text "From Note 3: 'For S^μ(10) this is the standard KPSS value of 0.460'";
      Text "";
      Header ["c̄"; "1%"; "5%"; "10%"];
      Rule "-" 50 ] ;;
  for_in CriticalValues.c_bar_values (critical_value_row "c") tt ;;
  print_all
    [ Text "";
      Text "Standard KPSS critical values (for comparison):";
      Text "  1%:  0.739";
      Text "  5%:  0.463";
      Text "  10%: 0.347";
      Text "";
      Rule "-" 70;
      Text "TREND CASE (Intercept + Trend, detrend='ct')";
      Rule "-" 70;
      Text "";
      Header ["c̄"; "1%"; "5%"; "10%"];
      Rule "-" 50 ] ;;
  for_in CriticalValues.c_bar_values (critical_value_row "ct") tt ;;
  print_all
    [ Text "";
      Text "Standard KPSS critical values (trend case):";
      Text "  1%:  0.216";
      Text "  5%:  0.146";
      Text "  10%: 0.119" ].

(** *** [simulate_power_curves] *)

Definition print_rate (row : Q * Q) (_ : unit) : M unit :=
  print (RateRow (fst row) (snd row)).

Definition power_curve (alpha : Q) (_ : unit) : M unit :=
  print (AlphaHeading alpha) ;;
  print (Rule "-" 40) ;;
  '(rejection_rates, cv) <-
    simulate_power_and_size PowerCurves.c_values PowerCurves.c_bar alpha
      PowerCurves.nominal_power "c" PowerCurves.n_replications
      PowerCurves.n_steps 42 ;;
  print (Header ["c"; "Rejection Rate"]) ;;
  print (Rule "-" 25) ;;
  for_in (combine PowerCurves.c_values rejection_rates) print_rate tt.

Definition simulate_power_curves : M unit :=
  print_all
    [ Text "";
      Rule "=" 70;
      Text "Simulating Power Curves (Figure 1)";
      Rule "=" 70;
      Text "" ] ;;
  for_in PowerCurves.alpha_values power_curve tt.

(** *** [simulate_table1_sizes] *)

(** One pass of the innermost loop: generate, evaluate, count. *)
Definition size_replication (theta alpha : Q) (_ : Z) (rejections : Z)
  : M Z :=
  y <- call (simulate_near_integrated_ma Table1.T Table1.c theta alpha
               0.0 1.0) ;;
  result <- call (modified_kpss_test y Table1.c_bar false) ;;
  ret (if reject_5pct result then (rejections + 1)%Z else rejections).

(** The loop over the replications and the size computed after it. *)
Definition size_loop (theta alpha : Q) : M Q :=
  rejections <- for_in (range Table1.n_sims) (size_replication theta alpha)
                  0%Z ;;
  ret (inject_Z rejections / inject_Z Table1.n_sims).

(** The body of the loop over [alpha]: one cell of the table. *)
Definition size_cell (theta alpha : Q) : M Q :=
  np_random_seed 42 ;;
  size_loop theta alpha.

Definition size_column (theta alpha : Q) (sizes : list Q) : M (list Q) :=
  size <- size_cell theta alpha ;;
  ret (sizes ++ [size]).

(** The body of the loop over [theta]: one row of the table. *)
Definition size_row (theta : Q) (_ : unit) : M unit :=
  sizes <- for_in Table1.alpha_values (size_column theta) [] ;;
  size_1 <- lift (getitem sizes 0) ;;
  size_2 <- lift (getitem sizes 1) ;;
  size_3 <- lift (getitem sizes 2) ;;
  print (SizeRow theta size_1 size_2 size_3).

Definition table1_heading : list line :=
  [ Text "";
    Rule "=" 70;
    Text "Replicating Table 1: Empirical Sizes at 5% Level";
    Rule "=" 70;
    Text "";
    Text "DGP: y_t = μ + w_t, w_t = ρ_{c,T} * w_{t-1} + v_t";
    Text "     v_t = ε_t - θ * ε_{t-1}, ε_t ~ i.i.d. N(0,1)";
    Text "     T = 200, c = 10, c̄ = 10";
    Text "";
    Header ["θ"; "α=1"; "α=3"; "α=5"];
    Rule "-" 42 ].

Definition table1_reference : list line :=
  [ Text "";
    Text "Table 1 from paper (S^μ(10)):";
    Text "       |   α=1   |   α=3   |   α=5";
    Text " θ=0.0 |  0.046  |  0.046  |  0.046";
    Text " θ=0.6 |  0.021  |  0.021  |  0.021";
    Text "θ=-0.6 |  0.051  |  0.051  |  0.051" ].

Definition simulate_table1_sizes : M unit :=
  print_all table1_heading ;;
  for_in Table1.theta_values size_row tt ;;
  print_all table1_reference.

(** *** The command line *)




(** *** The specification's reading of a table cell *)

(** One replication: generate a path, then evaluate the test on it. *)
Definition generate_then_evaluate (theta alpha : Q) : M TestResult :=
  y <- call (simulate_near_integrated_ma Table1.T Table1.c theta alpha
               0.0 1.0) ;;
  call (modified_kpss_test y Table1.c_bar false).

(** [n] replications one after the other on the one stream, their results
    in order. *)
Fixpoint replicate_M {A} (n : nat) (m : M A) : M (list A) :=
  match n with
  | O => ret []
  | S n' => x <- m ;; xs <- replicate_M n' m ;; ret (x :: xs)
  end.

(** The number of replications whose 5%-level flag is set. *)
Definition count_rejections (results : list TestResult) : Z :=
  Z.of_nat (length (filter reject_5pct results)).


(** *** Invariants of computations *)

(** [m] keeps the property [P] of the world, whatever its outcome. *)
Definition preserves {A} (P : world -> Prop) (m : M A) : Prop :=
  forall w, P w -> P (fst (m w)).

(** Since the world [w0] the stream has been put under seed [s] and every
    innovation drawn since is the next one of that stream, from its start. *)
Definition replaying (s : Z) (w0 w : world) : Prop :=
  rs_seed (rng w) = s /\
  drawn w =
    rev (map (randn_stream s) (seq 0 (rs_pos (rng w)))) ++ drawn w0.

(** The world entered with another random state. *)
Definition set_rng (g : RandomState) (w : world) : world :=
  {| rng := g; drawn := drawn w; stdout := stdout w; calls := calls w |}.


(** *** Reading the size table *)

(** The nine cells of the table, row by row. *)
Definition table_cells : list (Q * Q) :=
  list_prod Table1.theta_values Table1.alpha_values.

(** The [theta] of each size row on standard output, in order. *)
Fixpoint size_row_thetas (ls : list line) : list Q :=
  match ls with
  | [] => []
  | SizeRow theta _ _ _ :: ls' => theta :: size_row_thetas ls'
  | _ :: ls' => size_row_thetas ls'
  end.


(** *** Reading the replication loop and the critical-values report *)

(** The outcome of [m] and the random state it leaves depend on the world
    through its random state only. *)
Definition rng_determined {A} (m : M A) : Prop :=
  forall w1 w2, rng w1 = rng w2 ->
    snd (m w1) = snd (m w2) /\ rng (fst (m w1)) = rng (fst (m w2)).

(** The collaborator [p] returns, whatever the random state. *)
Definition never_raises {A} (p : Draws A) : Prop :=
  forall g, exists a, snd (exec p g) = Ok a.

(** The boundary configuration [c = c_bar] of the critical-values report,
    in the specification's words. *)
Definition boundary_config (detrend : string) (c_bar : Q)
  : SimulationConfig :=
  {| cfg_c := c_bar; cfg_c_bar := c_bar; cfg_alpha := 1.0;
     cfg_detrend := detrend; cfg_n_replications := 10000;
     cfg_n_steps := 5000; cfg_seed := 42 |}.

Definition boundary_calls : list SimulationConfig :=
  map (boundary_config "c") [5; 7; 10; 13; 15; 20]
  ++ map (boundary_config "ct") [5; 7; 10; 13; 15; 20].


(** *** Reading standard output *)

(** A row of critical values is ordered: the 10% value is at most the 5%
    value, itself at most the 1% value. *)
Definition cv_row_ordered (l : line) : Prop :=
  match l with
  | CvRow _ cv_1 cv_5 cv_10 => cv_10 <= cv_5 /\ cv_5 <= cv_1
  | _ => True
  end.

(** A size row is for a [theta] of the table and shows three frequencies. *)
Definition size_row_in_range (l : line) : Prop :=
  match l with
  | SizeRow theta size_1 size_2 size_3 =>
      In theta Table1.theta_values /\
      0 <= size_1 <= 1 /\ 0 <= size_2 <= 1 /\ 0 <= size_3 <= 1
  | _ => True
  end.

(** The [c_bar] of each row of critical values on standard output. *)
Fixpoint cv_row_c_bars (ls : list line) : list Q :=
  match ls with
  | [] => []
  | CvRow c_bar _ _ _ :: ls' => c_bar :: cv_row_c_bars ls'
  | _ :: ls' => cv_row_c_bars ls'
  end.


(** A rate row pairs a value of the power grid with a frequency. *)
Definition rate_row_in_range (l : line) : Prop :=
  match l with
  | RateRow c rate => In c PowerCurves.c_values /\ 0 <= rate <= 1
  | _ => True
  end.

(** The grid value of each rate row on standard output, in order. *)
Fixpoint rate_row_cs (ls : list line) : list Q :=
  match ls with
  | [] => []
  | RateRow c _ :: ls' => c :: rate_row_cs ls'
  | _ :: ls' => rate_row_cs ls'
  end.



(** ** Sorting and order statistics *)

Lemma insert_perm (x : Q) (l : list Q) : Permutation (x :: l) (insert x l).
Proof.
  induction l as [|y l IH]; simpl.
  - apply Permutation_refl.
  - destruct (Qle_bool x y).
    + apply Permutation_refl.
    + eapply perm_trans; [apply perm_swap|].
      apply perm_skip, IH.
Qed.

Lemma np_sort_perm (l : list Q) : Permutation l (np_sort l).
Proof.
  induction l as [|x l IH]; simpl.
  - apply perm_nil.
  - eapply perm_trans; [apply perm_skip, IH|apply insert_perm].
Qed.

Lemma np_sort_length (l : list Q) : length (np_sort l) = length l.
Proof. symmetry. apply Permutation_length, np_sort_perm. Qed.

Lemma insert_sorted (x : Q) (l : list Q) :
  StronglySorted Qle l -> StronglySorted Qle (insert x l).
Proof.
  induction 1 as [|y l Hl IH Hy]; simpl.
  - repeat constructor.
  - destruct (Qle_bool x y) eqn:E.
    + apply Qle_bool_iff in E.
      constructor; [constructor; assumption|].
      constructor; [assumption|].
      eapply Forall_impl; [|exact Hy].
      intros z Hz. eapply Qle_trans; eassumption.
    + constructor; [assumption|].
      eapply Permutation_Forall; [apply insert_perm|].
      constructor; [|assumption].
      apply Qlt_le_weak, Qnot_le_lt. intro H.
      apply Qle_bool_iff in H. congruence.
Qed.

Lemma np_sort_sorted (l : list Q) : StronglySorted Qle (np_sort l).
Proof.
  induction l as [|x l IH]; simpl.
  - constructor.
  - apply insert_sorted, IH.
Qed.

Lemma np_sort_order_statistics (l : list Q) : order_statistics l (np_sort l).
Proof. split; [apply np_sort_perm|apply np_sort_sorted]. Qed.

(** ** Indexing *)

Lemma getitem_at {A} (l : list A) (i : Z) (x : A) :
  (0 <= i)%Z -> nth_error l (Z.to_nat i) = Some x -> getitem l i = Ok x.
Proof.
  intros Hi Hx. unfold getitem.
  destruct (i <? 0)%Z eqn:E; [apply Z.ltb_lt in E; lia|].
  rewrite E, Hx. reflexivity.
Qed.

Lemma getitem_last {A} (l : list A) (x : A) :
  nth_error l (length l - 1) = Some x -> getitem l (-1) = Ok x.
Proof.
  intros Hx. unfold getitem.
  assert (Hn : (0 < length l)%nat).
  { destruct l; [destruct (0 - 1)%nat; discriminate|simpl; lia]. }
  replace (-1 <? 0)%Z with true by reflexivity.
  destruct (Z.of_nat (length l) + -1 <? 0)%Z eqn:E;
    [apply Z.ltb_lt in E; lia|].
  replace (Z.to_nat (Z.of_nat (length l) + -1)) with (length l - 1)%nat
    by lia.
  rewrite Hx. reflexivity.
Qed.

Lemma nth_error_defined {A} (l : list A) (i : nat) :
  (i < length l)%nat -> exists x, nth_error l i = Some x.
Proof.
  intros Hi. destruct (nth_error l i) eqn:E; [eauto|].
  apply nth_error_None in E. lia.
Qed.

(** ** [np.percentile] is linear interpolation between order statistics *)

Lemma lerp_linear (a b t : Q) : lerp a b t == a + t * (b - a).
Proof. unfold lerp. destruct (Qle_bool 0.5 t); ring. Qed.

Lemma np_quantile_interpolates (arr : list Q) (q : Q) :
  arr <> [] -> 0 <= q -> q <= 1 ->
  exists v, np_quantile arr q = Ok v /\ interpolates_at (np_sort arr) q v.
Proof.
  intros Harr Hq0 Hq1.
  assert (Hn : (0 < length arr)%nat) by (destruct arr; [congruence|simpl; lia]).
  unfold np_quantile.
  rewrite (proj2 (Qle_bool_iff _ _) Hq0), (proj2 (Qle_bool_iff _ _) Hq1).
  cbn [andb]. unfold quantile_unchecked, interpolates_at, get_indexes.
  rewrite np_sort_length.
  set (h := inject_Z (Z.of_nat (length arr) - 1) * q).
  assert (Hh0 : 0 <= h).
  { apply Qmult_le_0_compat; [|exact Hq0].
    change 0 with (inject_Z 0). rewrite <- Zle_Qle. lia. }
  assert (Hh1 : h <= inject_Z (Z.of_nat (length arr) - 1)).
  { unfold h.
    rewrite <- (Qmult_1_r (inject_Z (Z.of_nat (length arr) - 1))) at 2.
    rewrite !(Qmult_comm (inject_Z _)).
    apply Qmult_le_compat_r; [exact Hq1|].
    change 0 with (inject_Z 0). rewrite <- Zle_Qle. lia. }
  rewrite (proj2 (Qle_bool_iff _ _) Hh0). cbn [negb].
  destruct (Qle_bool (inject_Z (Z.of_nat (length arr) - 1)) h) eqn:E.
  - apply Qle_bool_iff in E.
    assert (Hh : h == inject_Z (Z.of_nat (length arr) - 1))
      by (apply Qle_antisym; assumption).
    assert (Hf : Qfloor h = (Z.of_nat (length arr) - 1)%Z)
      by (rewrite (Qfloor_comp _ _ Hh); apply Qfloor_Z).
    destruct (nth_error_defined (np_sort arr) (length arr - 1)) as [x Hx];
      [rewrite np_sort_length; lia|].
    rewrite (getitem_last (np_sort arr) x)
      by (rewrite np_sort_length; exact Hx).
    cbn [result_bind]. eexists; split; [reflexivity|].
    exists x, x. rewrite Hf.
    replace (Z.to_nat (Z.of_nat (length arr) - 1)) with (length arr - 1)%nat
      by lia.
    replace (Nat.min (S (length arr - 1)) (length arr - 1))
      with (length arr - 1)%nat by lia.
    repeat split; try exact Hx.
    rewrite lerp_linear. ring.
  - assert (Hlt : h < inject_Z (Z.of_nat (length arr) - 1)).
    { apply Qnot_le_lt. intro H. apply Qle_bool_iff in H. congruence. }
    assert (Hf0 : (0 <= Qfloor h)%Z).
    { change 0%Z with (Qfloor 0). apply Qfloor_resp_le, Hh0. }
    assert (Hf1 : (Qfloor h < Z.of_nat (length arr) - 1)%Z).
    { rewrite Zlt_Qlt. eapply Qle_lt_trans; [apply Qfloor_le|exact Hlt]. }
    destruct (nth_error_defined (np_sort arr) (Z.to_nat (Qfloor h)))
      as [lo Hlo]; [rewrite np_sort_length; lia|].
    destruct (nth_error_defined (np_sort arr) (S (Z.to_nat (Qfloor h))))
      as [hi Hhi]; [rewrite np_sort_length; lia|].
    rewrite (getitem_at (np_sort arr) (Qfloor h) lo Hf0 Hlo).
    rewrite (getitem_at (np_sort arr) (Qfloor h + 1) hi)
      by (try lia; replace (Z.to_nat (Qfloor h + 1))
            with (S (Z.to_nat (Qfloor h))) by lia; exact Hhi).
    cbn [result_bind]. eexists; split; [reflexivity|].
    exists lo, hi.
    replace (Nat.min (S (Z.to_nat (Qfloor h))) (length arr - 1))
      with (S (Z.to_nat (Qfloor h))) by lia.
    repeat split; try assumption.
    rewrite lerp_linear. ring.
Qed.


Lemma np_percentile_interpolates (arr : list Q) (p : Q) :
  arr <> [] -> 0 <= p -> p <= 100 ->
  exists v, np_percentile arr p = Ok v /\ interpolates (np_sort arr) p v.
Proof.
  intros Harr Hp0 Hp1. apply np_quantile_interpolates; [exact Harr| |].
  - apply Qle_shift_div_l; [reflexivity|]. ring_simplify. exact Hp0.
  - apply Qle_shift_div_r; [reflexivity|]. ring_simplify. exact Hp1.
Qed.

(** ** Order statistics do not depend on how the sample is sorted *)

Lemma filter_length_perm (f : Q -> bool) (l l' : list Q) :
  Permutation l l' -> length (filter f l) = length (filter f l').
Proof.
  induction 1 as [|x l l' _ IH|x y l|l l' l'' _ IH1 _ IH2]; simpl.
  - reflexivity.
  - destruct (f x); simpl; congruence.
  - destruct (f x), (f y); reflexivity.
  - congruence.
Qed.

Lemma filter_length_le (f g : Q -> bool) (l : list Q) :
  (forall x, f x = true -> g x = true) ->
  (length (filter f l) <= length (filter g l))%nat.
Proof.
  intros Hfg. induction l as [|x l IH]; simpl; [lia|].
  destruct (f x) eqn:E.
  - rewrite (Hfg x E). simpl. lia.
  - destruct (g x); simpl; lia.
Qed.

Lemma filter_length_all (f : Q -> bool) (l : list Q) :
  Forall (fun x => f x = true) l -> length (filter f l) = length l.
Proof.
  induction 1 as [|x l Hx _ IH]; simpl; [reflexivity|].
  rewrite Hx. simpl. congruence.
Qed.

Lemma filter_length_none (f : Q -> bool) (l : list Q) :
  Forall (fun x => f x = false) l -> length (filter f l) = 0%nat.
Proof.
  induction 1 as [|x l Hx _ IH]; simpl; [reflexivity|].
  rewrite Hx. exact IH.
Qed.

Lemma sorted_split (l1 l2 : list Q) (v : Q) :
  StronglySorted Qle (l1 ++ v :: l2) ->
  Forall (fun x => x <= v) l1 /\ Forall (Qle v) l2.
Proof.
  induction l1 as [|x l1 IH]; simpl; intros H;
    apply StronglySorted_inv in H; destruct H as [Hs Hx].
  - split; [constructor|exact Hx].
  - destruct (IH Hs) as [H1 H2]. split; [|exact H2].
    constructor; [|exact H1].
    rewrite Forall_forall in Hx. apply Hx, in_elt.
Qed.

(** In a sorted list the value at position [k] has at most [k] values
    strictly below it and more than [k] values at or below it. *)
Lemma sorted_rank (xs : list Q) (k : nat) (v : Q) :
  StronglySorted Qle xs -> nth_error xs k = Some v ->
  (length (filter (exceeds v) xs) <= length xs - S k)%nat /\
  (k < length (filter (fun x => Qle_bool x v) xs))%nat.
Proof.
  intros Hs Hk.
  destruct (nth_error_split xs k Hk) as (l1 & l2 & -> & Hl1).
  destruct (sorted_split l1 l2 v Hs) as [H1 H2].
  rewrite !filter_app, !length_app. simpl.
  assert (Hvv : Qle_bool v v = true) by (apply Qle_bool_iff, Qle_refl).
  unfold exceeds at 2. rewrite Hvv. simpl.
  rewrite (filter_length_none (exceeds v) l1).
  2:{ eapply Forall_impl; [|exact H1]. intros x Hx. unfold exceeds.
      apply Qle_bool_iff in Hx. rewrite Hx. reflexivity. }
  rewrite (filter_length_all (fun x => Qle_bool x v) l1).
  2:{ eapply Forall_impl; [|exact H1]. intros x Hx.
      apply Qle_bool_iff, Hx. }
  pose proof (filter_length_le (exceeds v) (fun _ => true) l2
                (fun _ _ => eq_refl)) as Hle.
  rewrite (filter_length_all (fun _ => true) l2) in Hle
    by (apply Forall_forall; reflexivity).
  lia.
Qed.

Lemma filter_exceeds_complement (v : Q) (l : list Q) :
  (length (filter (exceeds v) l)
   + length (filter (fun x => Qle_bool x v) l) = length l)%nat.
Proof.
  induction l as [|x l IH]; simpl; [reflexivity|].
  unfold exceeds at 1. destruct (Qle_bool x v); simpl; lia.
Qed.

Lemma filter_length_bound (f : Q -> bool) (l : list Q) :
  (length (filter f l) <= length l)%nat.
Proof.
  induction l as [|x l IH]; simpl; [lia|].
  destruct (f x); simpl; lia.
Qed.

Lemma order_statistic_le (as_ bs : list Q) (k : nat) (a b : Q) :
  Permutation as_ bs ->
  StronglySorted Qle as_ -> StronglySorted Qle bs ->
  nth_error as_ k = Some a -> nth_error bs k = Some b -> a <= b.
Proof.
  intros P Sa Sb Ha Hb.
  destruct (Qlt_le_dec b a) as [Hlt|Hle]; [exfalso|exact Hle].
  destruct (sorted_rank bs k b Sb Hb) as [_ Hb2].
  rewrite <- (filter_length_perm _ _ _ P) in Hb2.
  destruct (nth_error_split as_ k Ha) as (l1 & l2 & -> & Hl1).
  destruct (sorted_split l1 l2 a Sa) as [_ H2].
  rewrite filter_app, length_app in Hb2. simpl in Hb2.
  assert (Hab : Qle_bool a b = false).
  { destruct (Qle_bool a b) eqn:E; [|reflexivity].
    apply Qle_bool_iff in E. exfalso.
    eapply Qlt_not_le; eassumption. }
  rewrite Hab in Hb2.
  rewrite (filter_length_none (fun x => Qle_bool x b) l2) in Hb2.
  2:{ eapply Forall_impl; [|exact H2]. intros x Hx.
      destruct (Qle_bool x b) eqn:E; [|reflexivity].
      apply Qle_bool_iff in E. exfalso.
      apply (Qlt_not_le _ _ Hlt). eapply Qle_trans; eassumption. }
  pose proof (filter_length_bound (fun x => Qle_bool x b) l1).
  lia.
Qed.

Lemma order_statistic_unique (sample xs ys : list Q) (k : nat) (v v' : Q) :
  order_statistics sample xs -> order_statistics sample ys ->
  nth_error xs k = Some v -> nth_error ys k = Some v' -> v == v'.
Proof.
  intros [Px Sx] [Py Sy] Hv Hv'.
  assert (Pxy : Permutation xs ys)
    by (eapply perm_trans; [apply Permutation_sym, Px|exact Py]).
  apply Qle_antisym.
  - exact (order_statistic_le xs ys k v v' Pxy Sx Sy Hv Hv').
  - exact (order_statistic_le ys xs k v' v (Permutation_sym Pxy) Sy Sx Hv' Hv).
Qed.


Lemma interpolates_any_sorting (sample xs ys : list Q) (p v : Q) :
  order_statistics sample xs -> order_statistics sample ys ->
  interpolates xs p v -> interpolates ys p v.
Proof.
  intros Hx Hy (lo & hi & Hlo & Hhi & Hv).
  assert (Hlen : length ys = length xs).
  { destruct Hx as [Px _], Hy as [Py _].
    rewrite <- (Permutation_length Px). symmetry.
    apply Permutation_length, Py. }
  unfold interpolates, interpolates_at. rewrite Hlen.
  destruct (nth_error_defined ys
              (Z.to_nat (Qfloor (inject_Z (Z.of_nat (length xs) - 1)
                                 * (p / 100))))) as [lo' Hlo'].
  { rewrite Hlen. apply nth_error_Some. congruence. }
  destruct (nth_error_defined ys
              (Nat.min
                 (S (Z.to_nat (Qfloor (inject_Z (Z.of_nat (length xs) - 1)
                                       * (p / 100)))))
                 (length xs - 1))) as [hi' Hhi'].
  { rewrite Hlen. apply nth_error_Some. congruence. }
  exists lo', hi'. repeat split; try assumption.
  rewrite Hv.
  rewrite (order_statistic_unique sample xs ys _ lo lo' Hx Hy Hlo Hlo').
  rewrite (order_statistic_unique sample xs ys _ hi hi' Hx Hy Hhi Hhi').
  reflexivity.
Qed.

(** C1.  On a non-empty sample the critical value extractor returns the
    99th, 95th and 90th percentiles, each the linear interpolation between
    the order statistics of the sample, whichever way the sample is put in
    increasing order; on the sample 1, 2, ..., 100 the 95th percentile it
    returns is 95.05. *)
Theorem critical_value_extractor_percentiles (stats : list Q) :
  stats <> [] ->
  exists cv_1 cv_5 cv_10,
    critical_value_extractor stats = Ok (cv_1, cv_5, cv_10) /\
    (forall xs, order_statistics stats xs ->
       interpolates xs 99 cv_1 /\ interpolates xs 95 cv_5 /\
       interpolates xs 90 cv_10) /\
    (stats = np_arange 1 101 -> cv_5 == 95.05).
Proof.
  intros Hne.
  destruct (np_percentile_interpolates stats 99 Hne) as (cv_1 & E1 & I1);
    [discriminate|discriminate|].
  destruct (np_percentile_interpolates stats 95 Hne) as (cv_5 & E5 & I5);
    [discriminate|discriminate|].
  destruct (np_percentile_interpolates stats 90 Hne) as (cv_10 & E10 & I10);
    [discriminate|discriminate|].
  exists cv_1, cv_5, cv_10. split; [|split].
  - unfold critical_value_extractor. rewrite E1, E5, E10. reflexivity.
  - intros xs Hxs.
    pose proof (np_sort_order_statistics stats) as Hs.
    repeat split; eapply interpolates_any_sorting; eassumption.
  - intros ->. vm_compute in E5. injection E5 as <-. reflexivity.
Qed.


(** ** The size table: a cell is a rejection frequency *)

Lemma replicate_M_length {A} (n : nat) (m : M A) (w w' : world)
    (xs : list A) :
  replicate_M n m w = (w', Ok xs) -> length xs = n.
Proof.
  revert w w' xs. induction n as [|n IH]; simpl; intros w w' xs H.
  - unfold ret in H. injection H as _ <-. reflexivity.
  - unfold bind in H. destruct (m w) as [w1 [x|e]]; [|discriminate].
    destruct (replicate_M n m w1) as [w2 [xs'|e]] eqn:E; [|discriminate].
    unfold ret in H. injection H as _ <-. simpl.
    f_equal. eapply IH, E.
Qed.

(** The counting loop against the replications collected in a list. *)
Lemma size_loop_counts (theta alpha : Q) (iterations : list Z)
    (rejections : Z) (w : world) :
  for_in iterations (size_replication theta alpha) rejections w =
  match replicate_M (length iterations)
          (generate_then_evaluate theta alpha) w with
  | (w', Ok results) =>
      (w', Ok (rejections + count_rejections results)%Z)
  | (w', Err e) => (w', Err e)
  end.
Proof.
  revert rejections w.
  induction iterations as [|i iterations IH]; intros rejections w; simpl.
  - unfold ret, count_rejections. simpl. rewrite Z.add_0_r. reflexivity.
  - unfold size_replication, generate_then_evaluate, bind at 1 2 3 6 7.
    destruct (call _ w) as [w1 [y|e]]; [|reflexivity].
    unfold bind at 1 3.
    destruct (call _ w1) as [w2 [result|e]]; [|reflexivity].
    unfold ret at 1. rewrite IH. unfold bind.
    destruct (replicate_M _ _ w2) as [w3 [results|e]]; [|reflexivity].
    unfold ret, count_rejections. simpl.
    destruct (reject_5pct result); simpl; do 2 f_equal; lia.
Qed.

Lemma range_length (n : Z) : length (range n) = Z.to_nat n.
Proof. unfold range. rewrite length_map, length_seq. reflexivity. Qed.

Lemma count_rejections_bounds (results : list TestResult) :
  (0 <= count_rejections results <= Z.of_nat (length results))%Z.
Proof.
  unfold count_rejections. split; [lia|].
  apply Nat2Z.inj_le.
  induction results as [|r results IH]; simpl; [lia|].
  destruct (reject_5pct r); simpl; lia.
Qed.

(** What a cell computes, against the replications collected in a list. *)
Lemma size_cell_counts (theta alpha : Q) (w : world) :
  match size_cell theta alpha w with
  | (w', Ok empirical_size) =>
      exists results,
        replicate_M 1000 (generate_then_evaluate theta alpha)
          (fst (np_random_seed 42 w)) = (w', Ok results) /\
        length results = 1000%nat /\
        empirical_size =
          inject_Z (count_rejections results) / inject_Z Table1.n_sims
  | (w', Err e) =>
      replicate_M 1000 (generate_then_evaluate theta alpha)
        (fst (np_random_seed 42 w)) = (w', Err e)
  end.
Proof.
  unfold size_cell, size_loop, bind at 1 2.
  change (np_random_seed 42 w) with (fst (np_random_seed 42 w), Ok tt).
  cbn [fst]. rewrite size_loop_counts, range_length.
  change (Z.to_nat Table1.n_sims) with 1000%nat.
  destruct (replicate_M 1000 _ _) as [w' [results|e]] eqn:E; [|reflexivity].
  unfold ret. exists results. repeat split.
  eapply replicate_M_length, E.
Qed.

(** C2.  A cell of the size table reseeds the stream, runs the
    generate-then-evaluate replication exactly [n_sims = 1000] times, and
    reports the number of replications whose 5%-level flag is set divided by
    [n_sims]; a replication that raises ends the cell with that error. *)
Theorem size_cell_is_rejection_frequency (theta alpha : Q) (w : world) :
  Table1.n_sims = 1000%Z /\
  match size_cell theta alpha w with
  | (w', Ok empirical_size) =>
      exists results,
        replicate_M 1000 (generate_then_evaluate theta alpha)
          (fst (np_random_seed 42 w)) = (w', Ok results) /\
        length results = 1000%nat /\
        empirical_size =
          inject_Z (count_rejections results) / inject_Z Table1.n_sims
  | (w', Err e) =>
      replicate_M 1000 (generate_then_evaluate theta alpha)
        (fst (np_random_seed 42 w)) = (w', Err e)
  end.
Proof. split; [reflexivity|apply size_cell_counts]. Qed.

(** C10.  The size a cell reports lies in [0, 1] and is an integer multiple
    of [1 / n_sims]. *)
Theorem empirical_size_in_unit_interval (theta alpha : Q) (w w' : world)
    (empirical_size : Q) :
  size_cell theta alpha w = (w', Ok empirical_size) ->
  0 <= empirical_size <= 1 /\
  exists rejections : Z,
    (0 <= rejections <= Table1.n_sims)%Z /\
    empirical_size == inject_Z rejections * (1 / inject_Z Table1.n_sims).
Proof.
  intros H. pose proof (size_cell_counts theta alpha w) as Hc.
  rewrite H in Hc. destruct Hc as (results & _ & Hlen & ->).
  pose proof (count_rejections_bounds results) as [Hlo Hhi].
  rewrite Hlen in Hhi. change (Z.of_nat 1000) with Table1.n_sims in Hhi.
  assert (Hpos : 0 < inject_Z Table1.n_sims) by reflexivity.
  split; [split|].
  - apply Qle_shift_div_l; [exact Hpos|].
    rewrite Qmult_0_l. change 0 with (inject_Z 0). rewrite <- Zle_Qle.
    exact Hlo.
  - apply Qle_shift_div_r; [exact Hpos|].
    rewrite Qmult_1_l. rewrite <- Zle_Qle. exact Hhi.
  - exists (count_rejections results). split; [lia|].
    unfold Qdiv. ring.
Qed.

(** ** Invariants through the monad *)

Lemma preserves_ret {A} (P : world -> Prop) (a : A) : preserves P (ret a).
Proof. intros w H. exact H. Qed.

Lemma preserves_lift {A} (P : world -> Prop) (r : result A) :
  preserves P (lift r).
Proof. intros w H. exact H. Qed.

Lemma preserves_bind {A B} (P : world -> Prop) (m : M A) (f : A -> M B) :
  preserves P m -> (forall a, preserves P (f a)) -> preserves P (bind m f).
Proof.
  intros Hm Hf w H. unfold bind. specialize (Hm w H).
  destruct (m w) as [w1 [a|e]]; simpl in *.
  - apply Hf, Hm.
  - exact Hm.
Qed.

Lemma preserves_for_in {A S} (P : world -> Prop) (xs : list A)
    (body : A -> S -> M S) (s : S) :
  (forall x s', preserves P (body x s')) -> preserves P (for_in xs body s).
Proof.
  intros Hb. revert s. induction xs as [|x xs IH]; intros s; simpl.
  - apply preserves_ret.
  - apply preserves_bind; [apply Hb|]. intros s'. apply IH.
Qed.

(** ** The innovations a collaborator draws *)

Lemma exec_stream {A} (p : Draws A) (g : RandomState) :
  fst (fst (exec p g)) =
    map (randn_stream (rs_seed g))
      (seq (rs_pos g) (length (fst (fst (exec p g))))) /\
  rs_seed (snd (fst (exec p g))) = rs_seed g /\
  rs_pos (snd (fst (exec p g))) =
    (rs_pos g + length (fst (fst (exec p g))))%nat.
Proof.
  revert g. induction p as [a|e|k IH]; intros g; simpl.
  - repeat split. lia.
  - repeat split. lia.
  - specialize (IH (randn_stream (rs_seed g) (rs_pos g))
                  {| rs_seed := rs_seed g; rs_pos := S (rs_pos g) |}).
    destruct (exec _ _) as [[xs g'] r]. simpl in *.
    destruct IH as (Hxs & Hseed & Hpos).
    repeat split.
    + f_equal. exact Hxs.
    + exact Hseed.
    + lia.
Qed.

Lemma call_replaying {A} (s : Z) (w0 : world) (p : Draws A) :
  preserves (replaying s w0) (call p).
Proof.
  intros w [Hseed Hdrawn]. unfold call.
  pose proof (exec_stream p (rng w)) as (Hxs & Hs & Hp).
  destruct (exec p (rng w)) as [[xs g] r]. simpl in *.
  split; simpl; [congruence|].
  rewrite Hp, Hdrawn, seq_app, map_app, rev_app_distr, <- app_assoc.
  simpl. subst s. rewrite <- Hxs. reflexivity.
Qed.

Lemma drawn_since_replaying (s : Z) (w0 w : world) :
  replaying s w0 w ->
  drawn_since w0 w = map (randn_stream s) (seq 0 (rs_pos (rng w))).
Proof.
  intros [_ H]. unfold drawn_since. rewrite H, length_app.
  replace (length (rev (map (randn_stream s) (seq 0 (rs_pos (rng w)))))
           + length (drawn w0) - length (drawn w0))%nat
    with (length (rev (map (randn_stream s) (seq 0 (rs_pos (rng w))))) + 0)%nat
    by lia.
  rewrite firstn_app_2. simpl. rewrite app_nil_r. apply rev_involutive.
Qed.

Lemma size_cell_replaying (theta alpha : Q) (w : world) :
  replaying 42 w (fst (size_cell theta alpha w)).
Proof.
  unfold size_cell, size_loop, bind at 1.
  change (np_random_seed 42 w) with (fst (np_random_seed 42 w), Ok tt).
  cbn iota.
  assert (H0 : replaying 42 w (fst (np_random_seed 42 w)))
    by (split; reflexivity).
  revert H0. generalize (fst (np_random_seed 42 w)).
  change (forall w1, replaying 42 w w1 ->
            replaying 42 w
              (fst ((rejections <- for_in (range Table1.n_sims)
                                     (size_replication theta alpha) 0%Z ;;
                     ret (inject_Z rejections / inject_Z Table1.n_sims)) w1))).
  apply preserves_bind; [|intros; apply preserves_ret].
  apply preserves_for_in. intros i rejections. unfold size_replication.
  apply preserves_bind; [apply call_replaying|]. intros y.
  apply preserves_bind; [apply call_replaying|]. intros result.
  apply preserves_ret.
Qed.

Lemma size_cell_draws (theta alpha : Q) (w : world) :
  exists k, drawn_since w (fst (size_cell theta alpha w)) =
            map (randn_stream 42) (seq 0 k).
Proof.
  eexists. apply drawn_since_replaying, size_cell_replaying.
Qed.

Lemma size_cell_ignores_rng (theta alpha : Q) (g : RandomState) (w : world) :
  size_cell theta alpha (set_rng g w) = size_cell theta alpha w.
Proof. reflexivity. Qed.

Lemma stream_prefixes_agree (f : nat -> Q) (k1 k2 i : nat) (x y : Q) :
  nth_error (map f (seq 0 k1)) i = Some x ->
  nth_error (map f (seq 0 k2)) i = Some y -> x = y.
Proof.
  intros H1 H2.
  assert (Hi1 : (i < length (map f (seq 0 k1)))%nat)
    by (apply nth_error_Some; congruence).
  assert (Hi2 : (i < length (map f (seq 0 k2)))%nat)
    by (apply nth_error_Some; congruence).
  rewrite length_map, length_seq in Hi1, Hi2.
  rewrite nth_error_map, nth_error_seq in H1, H2.
  apply Nat.ltb_lt in Hi1, Hi2. rewrite Hi1 in H1. rewrite Hi2 in H2.
  simpl in *. congruence.
Qed.


Lemma size_cell_reseeds (theta alpha : Q) (w : world) :
  size_cell theta alpha w =
  size_loop theta alpha (set_rng {| rs_seed := 42; rs_pos := 0 |} w).
Proof. reflexivity. Qed.

Lemma replayed_draws_agree (theta_1 alpha_1 theta_2 alpha_2 : Q)
    (w_1 w_2 : world) :
  let draws_1 := drawn_since w_1 (fst (size_cell theta_1 alpha_1 w_1)) in
  let draws_2 := drawn_since w_2 (fst (size_cell theta_2 alpha_2 w_2)) in
  (exists k_1 k_2,
      draws_1 = map (randn_stream 42) (seq 0 k_1) /\
      draws_2 = map (randn_stream 42) (seq 0 k_2)) /\
  (forall i x y,
      nth_error draws_1 i = Some x -> nth_error draws_2 i = Some y ->
      x = y) /\
  (length draws_1 = length draws_2 -> draws_1 = draws_2).
Proof.
  intros draws_1 draws_2.
  destruct (size_cell_draws theta_1 alpha_1 w_1) as [k_1 H1].
  destruct (size_cell_draws theta_2 alpha_2 w_2) as [k_2 H2].
  fold draws_1 in H1. fold draws_2 in H2.
  split; [exists k_1, k_2; split; assumption|].
  split.
  - intros i x y Hx Hy. rewrite H1 in Hx. rewrite H2 in Hy.
    eapply stream_prefixes_agree; eassumption.
  - intros Hlen. rewrite H1, H2 in *.
    rewrite !length_map, !length_seq in Hlen. congruence.
Qed.

(** C3.  A cell of the size table puts the stream under seed 42 before its
    replication loop begins, whatever random state it is entered with.  So,
    for a fixed [theta], the cells of two values of [alpha] draw the same
    innovations: each draws the stream of seed 42 from its start, the two
    agree at every position both reach, and they are the same sequence
    when both draw as many. *)
Theorem reseed_replays_innovations (theta alpha_1 alpha_2 : Q)
    (w_1 w_2 : world) :
  let draws_1 := drawn_since w_1 (fst (size_cell theta alpha_1 w_1)) in
  let draws_2 := drawn_since w_2 (fst (size_cell theta alpha_2 w_2)) in
  (forall alpha w,
      size_cell theta alpha w =
      size_loop theta alpha (set_rng {| rs_seed := 42; rs_pos := 0 |} w)) /\
  (forall alpha g w,
      size_cell theta alpha (set_rng g w) = size_cell theta alpha w) /\
  (exists k_1 k_2,
      draws_1 = map (randn_stream 42) (seq 0 k_1) /\
      draws_2 = map (randn_stream 42) (seq 0 k_2)) /\
  (forall i x y,
      nth_error draws_1 i = Some x -> nth_error draws_2 i = Some y ->
      x = y) /\
  (length draws_1 = length draws_2 -> draws_1 = draws_2).
Proof.
  intros draws_1 draws_2.
  split; [intros; apply size_cell_reseeds|].
  split; [intros; apply size_cell_ignores_rng|].
  apply replayed_draws_agree.
Qed.

(** C9.  The reseeding does not depend on [theta] either: any two of the
    nine cells of the table, of whatever rows, draw the stream of seed 42
    from its start, agree at every position both reach, and draw the same
    sequence when both draw as many. *)
Theorem all_cells_replay_one_stream (cell_1 cell_2 : Q * Q)
    (w_1 w_2 : world) :
  In cell_1 table_cells -> In cell_2 table_cells ->
  let draws_1 :=
    drawn_since w_1 (fst (size_cell (fst cell_1) (snd cell_1) w_1)) in
  let draws_2 :=
    drawn_since w_2 (fst (size_cell (fst cell_2) (snd cell_2) w_2)) in
  length table_cells = 9%nat /\
  (exists k_1 k_2,
      draws_1 = map (randn_stream 42) (seq 0 k_1) /\
      draws_2 = map (randn_stream 42) (seq 0 k_2)) /\
  (forall i x y,
      nth_error draws_1 i = Some x -> nth_error draws_2 i = Some y ->
      x = y) /\
  (length draws_1 = length draws_2 -> draws_1 = draws_2).
Proof.
  intros _ _ draws_1 draws_2. split; [reflexivity|].
  apply replayed_draws_agree.
Qed.


(** ** Errors end the loops *)




Lemma print_all_spec (ls : list line) (w : world) :
  print_all ls w =
  ({| rng := rng w; drawn := drawn w; stdout := stdout w ++ ls;
      calls := calls w |}, Ok tt).
Proof.
  revert w. induction ls as [|l ls IH]; intros w; simpl.
  - unfold ret. rewrite app_nil_r. destruct w; reflexivity.
  - unfold bind, print. rewrite IH. simpl. rewrite <- app_assoc.
    reflexivity.
Qed.

Lemma size_row_thetas_app (ls ls' : list line) :
  size_row_thetas (ls ++ ls') = size_row_thetas ls ++ size_row_thetas ls'.
Proof.
  induction ls as [|l ls IH]; simpl; [reflexivity|].
  destruct l; simpl; congruence.
Qed.

(** Nothing but [print] writes to standard output. *)
Lemma call_keeps_stdout {A} (out : list line) (p : Draws A) :
  preserves (fun w => stdout w = out) (call p).
Proof.
  intros w H. unfold call. destruct (exec p (rng w)) as [[xs g] r].
  exact H.
Qed.

Lemma size_cell_keeps_stdout (out : list line) (theta alpha : Q) :
  preserves (fun w => stdout w = out) (size_cell theta alpha).
Proof.
  unfold size_cell, size_loop.
  apply preserves_bind; [intros w H; exact H|]. intros _.
  apply preserves_bind; [|intros; apply preserves_ret].
  apply preserves_for_in. intros i rejections. unfold size_replication.
  apply preserves_bind; [apply call_keeps_stdout|]. intros y.
  apply preserves_bind; [apply call_keeps_stdout|]. intros result.
  apply preserves_ret.
Qed.

Lemma size_columns_keep_stdout (out : list line) (theta : Q)
    (alphas sizes : list Q) :
  preserves (fun w => stdout w = out)
    (for_in alphas (size_column theta) sizes).
Proof.
  apply preserves_for_in. intros alpha sizes'. unfold size_column.
  apply preserves_bind; [apply size_cell_keeps_stdout|].
  intros; apply preserves_ret.
Qed.






(** ** The replication loop is reproducible *)

Lemma rng_determined_ret {A} (a : A) : rng_determined (ret a).
Proof. intros w1 w2 H. split; [reflexivity|exact H]. Qed.

Lemma rng_determined_bind {A B} (m : M A) (f : A -> M B) :
  rng_determined m -> (forall a, rng_determined (f a)) ->
  rng_determined (bind m f).
Proof.
  intros Hm Hf w1 w2 H. unfold bind.
  destruct (Hm w1 w2 H) as [Hr Hg].
  destruct (m w1) as [w1' [a1|e1]], (m w2) as [w2' [a2|e2]];
    simpl in *; try discriminate.
  - injection Hr as <-. apply Hf, Hg.
  - injection Hr as <-. split; [reflexivity|exact Hg].
Qed.

Lemma rng_determined_call {A} (p : Draws A) : rng_determined (call p).
Proof.
  intros w1 w2 H. unfold call. rewrite H.
  destruct (exec p (rng w2)) as [[xs g] r]. split; reflexivity.
Qed.

Lemma rng_determined_replications (n : nat) (cfg : SimulationConfig) :
  rng_determined (replications n cfg).
Proof.
  induction n as [|n IH]; simpl.
  - apply rng_determined_ret.
  - apply rng_determined_bind; [apply rng_determined_call|]. intros path.
    apply rng_determined_bind; [apply rng_determined_call|]. intros stat.
    apply rng_determined_bind; [exact IH|]. intros stats.
    apply rng_determined_ret.
Qed.

Lemma replications_length (n : nat) (cfg : SimulationConfig)
    (w w' : world) (stats : list Q) :
  replications n cfg w = (w', Ok stats) -> length stats = n.
Proof.
  revert w w' stats. induction n as [|n IH]; simpl; intros w w' stats H.
  - unfold ret in H. injection H as _ <-. reflexivity.
  - unfold bind in H.
    destruct (call (dgp_generator cfg) w) as [w1 [path|e]]; [|discriminate].
    destruct (call (statistic_evaluator cfg path) w1) as [w2 [stat|e]];
      [|discriminate].
    destruct (replications n cfg w2) as [w3 [stats'|e]] eqn:E;
      [|discriminate].
    unfold ret in H. injection H as _ <-. simpl. f_equal. eapply IH, E.
Qed.

Lemma call_returns {A} (p : Draws A) (w : world) :
  never_raises p -> exists w' a, call p w = (w', Ok a).
Proof.
  intros H. unfold call. destruct (H (rng w)) as [a Ha].
  destruct (exec p (rng w)) as [[xs g] r]. simpl in Ha. subst r.
  eauto.
Qed.

Lemma replications_return (n : nat) (cfg : SimulationConfig) (w : world) :
  never_raises (dgp_generator cfg) ->
  (forall path, never_raises (statistic_evaluator cfg path)) ->
  exists w' stats, replications n cfg w = (w', Ok stats).
Proof.
  intros Hg He. revert w. induction n as [|n IH]; intros w; simpl.
  - unfold ret. eauto.
  - unfold bind.
    destruct (call_returns (dgp_generator cfg) w Hg) as (w1 & path & ->).
    destruct (call_returns (statistic_evaluator cfg path) w1 (He path))
      as (w2 & stat & ->).
    destruct (IH w2) as (w3 & stats & ->).
    unfold ret. eauto.
Qed.

(** The outcome of the replication loop does not depend on the world it is
    entered in. *)
Lemma simulate_critical_values_outcome (cfg : SimulationConfig)
    (w1 w2 : world) :
  snd (simulate_critical_values cfg w1) =
  snd (simulate_critical_values cfg w2).
Proof.
  unfold simulate_critical_values, bind at 1 3, log_call.
  destruct (valid_config cfg); [|reflexivity].
  unfold bind at 1 2, np_random_seed.
  apply rng_determined_replications. reflexivity.
Qed.

Lemma simulate_critical_values_length (cfg : SimulationConfig) (w : world)
    (stats : list Q) :
  snd (simulate_critical_values cfg w) = Ok stats ->
  Z.of_nat (length stats) = cfg_n_replications cfg.
Proof.
  unfold simulate_critical_values, bind at 1, log_call.
  destruct (valid_config cfg) eqn:V; [|discriminate].
  unfold bind at 1, np_random_seed.
  destruct (replications _ _ _) as [w' [stats'|e]] eqn:E;
    [|discriminate].
  simpl. intros H. injection H as <-.
  rewrite (replications_length _ _ _ _ _ E).
  unfold valid_config in V.
  apply andb_prop in V. destruct V as [V _].
  apply andb_prop in V. destruct V as [V _].
  apply Z.ltb_lt in V. lia.
Qed.

(** C5.  Two invocations of the replication loop on the same configuration,
    from whatever worlds, have the same outcome: the same sample, value for
    value, or the same error.  A sample has [n_replications] values, and
    the loop returns one when the configuration is valid and the generator
    and the evaluator do not raise. *)
Theorem replication_loop_reproducible (cfg : SimulationConfig)
    (w_1 w_2 : world) :
  snd (simulate_critical_values cfg w_1) =
  snd (simulate_critical_values cfg w_2) /\
  (forall stats,
      snd (simulate_critical_values cfg w_1) = Ok stats ->
      Z.of_nat (length stats) = cfg_n_replications cfg) /\
  (valid_config cfg = true ->
   never_raises (dgp_generator cfg) ->
   (forall path, never_raises (statistic_evaluator cfg path)) ->
   exists stats, snd (simulate_critical_values cfg w_1) = Ok stats).
Proof.
  split; [apply simulate_critical_values_outcome|]. split.
  - intros stats. apply simulate_critical_values_length.
  - intros V Hg He.
    unfold simulate_critical_values, bind at 1, log_call. rewrite V.
    unfold bind at 1, np_random_seed.
    match goal with
    | |- context [replications ?n cfg ?w] =>
        destruct (replications_return n cfg w Hg He) as (w' & stats & ->)
    end.
    exists stats. reflexivity.
Qed.

(** ** The critical-values report calls the loop at the boundary *)

Lemma call_keeps_calls {A} (log : list SimulationConfig) (p : Draws A) :
  preserves (fun w => calls w = log) (call p).
Proof.
  intros w H. unfold call. destruct (exec p (rng w)) as [[xs g] r].
  exact H.
Qed.

Lemma simulate_critical_values_logged (cfg : SimulationConfig) (w : world) :
  calls (fst (simulate_critical_values cfg w)) = calls w ++ [cfg].
Proof.
  unfold simulate_critical_values, bind at 1, log_call.
  destruct (valid_config cfg); [|reflexivity].
  unfold bind at 1, np_random_seed.
  match goal with
  | |- calls (fst (replications ?n cfg ?w0)) = _ =>
      change (calls w ++ [cfg]) with (calls w0); generalize w0
  end.
  intros w0.
  assert (H : preserves (fun w' => calls w' = calls w0)
                (replications (Z.to_nat (cfg_n_replications cfg)) cfg)).
  { generalize (Z.to_nat (cfg_n_replications cfg)).
    induction n as [|n IH]; simpl.
    - apply preserves_ret.
    - apply preserves_bind; [apply call_keeps_calls|]. intros path.
      apply preserves_bind; [apply call_keeps_calls|]. intros stat.
      apply preserves_bind; [exact IH|]. intros; apply preserves_ret. }
  apply H. reflexivity.
Qed.

Lemma critical_value_row_logged (detrend : string) (c_bar : Q) (w : world) :
  calls (fst (critical_value_row detrend c_bar tt w)) =
  calls w ++ [boundary_config detrend c_bar].
Proof.
  unfold critical_value_row, bind at 1.
  pose proof (simulate_critical_values_logged
                (boundary_config detrend c_bar) w) as H.
  change (boundary_config detrend c_bar) with
    {| cfg_c := c_bar; cfg_c_bar := c_bar; cfg_alpha := 1.0;
       cfg_detrend := detrend;
       cfg_n_replications := CriticalValues.n_replications;
       cfg_n_steps := CriticalValues.n_steps;
       cfg_seed := CriticalValues.seed |} in H at 1.
  destruct (simulate_critical_values _ w) as [w1 [stats|e]]; simpl in H;
    [|exact H].
  unfold bind, lift.
  destruct (critical_value_extractor stats) as [[[cv_1 cv_5] cv_10]|e];
    simpl; exact H.
Qed.

(** The rows completed and the row reached when the loop ended. *)
Lemma critical_value_rows_logged (detrend : string) (c_bars : list Q)
    (w : world) :
  exists made left,
    made ++ left = c_bars /\
    calls (fst (for_in c_bars (critical_value_row detrend) tt w)) =
      calls w ++ map (boundary_config detrend) made /\
    (snd (for_in c_bars (critical_value_row detrend) tt w) = Ok tt ->
     left = []).
Proof.
  revert w. induction c_bars as [|c_bar c_bars IH]; intros w; simpl.
  - exists [], []. simpl. rewrite app_nil_r. repeat split.
  - unfold bind.
    pose proof (critical_value_row_logged detrend c_bar w) as H.
    destruct (critical_value_row detrend c_bar tt w) as [w1 [[]|e]];
      simpl in H.
    + destruct (IH w1) as (made & left & Hsplit & Hcalls & Hok).
      exists (c_bar :: made), left. simpl. rewrite Hsplit.
      split; [reflexivity|]. split; [|exact Hok].
      rewrite Hcalls, H, <- app_assoc. reflexivity.
    + exists [c_bar], c_bars. simpl. split; [reflexivity|].
      split; [exact H|discriminate].
Qed.


(** C6.  Every invocation of the replication loop made by the
    critical-values report is at the boundary [c = c_bar], with
    [alpha = 1.0], 10000 replications, 5000 steps and seed 42: the
    invocations are, in order, those for [c_bar] in 5, 7, 10, 13, 15, 20
    under detrend ["c"] and then under ["ct"], all twelve of them when the
    report completes and the first of them up to the failing one when a
    collaborator raises. *)
Theorem critical_values_report_at_boundary (w : world) :
  exists made left,
    calls (fst (simulate_asymptotic_critical_values w)) = calls w ++ made /\
    made ++ left = boundary_calls /\
    (snd (simulate_asymptotic_critical_values w) = Ok tt -> left = []) /\
    length boundary_calls = 12%nat /\
    Forall (fun cfg =>
              cfg_c cfg = cfg_c_bar cfg /\
              In (cfg_c_bar cfg) CriticalValues.c_bar_values /\
              (cfg_detrend cfg = "c" \/ cfg_detrend cfg = "ct") /\
              cfg_alpha cfg = 1.0 /\
              cfg_n_replications cfg = 10000%Z /\
              cfg_n_steps cfg = 5000%Z /\
              cfg_seed cfg = 42%Z)
      boundary_calls.
Proof.
  assert (Hall : length boundary_calls = 12%nat /\
                 Forall (fun cfg =>
                           cfg_c cfg = cfg_c_bar cfg /\
                           In (cfg_c_bar cfg) CriticalValues.c_bar_values /\
                           (cfg_detrend cfg = "c" \/ cfg_detrend cfg = "ct") /\
                           cfg_alpha cfg = 1.0 /\
                           cfg_n_replications cfg = 10000%Z /\
                           cfg_n_steps cfg = 5000%Z /\
                           cfg_seed cfg = 42%Z)
                   boundary_calls).
  { split; [reflexivity|].
    apply Forall_forall. intros cfg Hin. unfold boundary_calls in Hin.
    apply in_app_or in Hin.
    destruct Hin as [Hin|Hin]; apply in_map_iff in Hin;
      destruct Hin as (c_bar & <- & Hc); cbn [boundary_config cfg_c
        cfg_c_bar cfg_alpha cfg_detrend cfg_n_replications cfg_n_steps
        cfg_seed]; repeat split; auto. }
  unfold simulate_asymptotic_critical_values, bind.
  rewrite print_all_spec. cbv beta iota.
  match goal with
  | |- context [for_in _ (critical_value_row "c") tt ?w0] =>
      set (w1 := w0);
      destruct (critical_value_rows_logged "c" CriticalValues.c_bar_values
                  w1) as (made1 & left1 & Hsplit1 & Hcalls1 & Hok1)
  end.
  assert (Hw1 : calls w1 = calls w) by reflexivity.
  clearbody w1.
  destruct (for_in CriticalValues.c_bar_values (critical_value_row "c") tt w1)
    as [w2 [[]|e]]; cbn [fst snd] in Hcalls1, Hok1.
  - specialize (Hok1 eq_refl). subst left1. rewrite app_nil_r in Hsplit1.
    subst made1.
    rewrite print_all_spec. cbv beta iota.
    match goal with
    | |- context [for_in _ (critical_value_row "ct") tt ?w0] =>
        set (w3 := w0);
        destruct (critical_value_rows_logged "ct"
                    CriticalValues.c_bar_values w3)
          as (made2 & left2 & Hsplit2 & Hcalls2 & Hok2)
    end.
    assert (Hw3 : calls w3 = calls w2) by reflexivity.
    clearbody w3.
    destruct (for_in CriticalValues.c_bar_values (critical_value_row "ct")
                tt w3) as [w4 [[]|e]]; cbn [fst snd] in Hcalls2, Hok2.
    + specialize (Hok2 eq_refl). subst left2. rewrite app_nil_r in Hsplit2.
      subst made2. rewrite print_all_spec. cbn [fst snd calls].
      exists boundary_calls, []. rewrite app_nil_r.
      split; [|split; [reflexivity|split; [reflexivity|exact Hall]]].
      rewrite Hcalls2, Hw3, Hcalls1, Hw1, <- app_assoc. reflexivity.
    + exists (map (boundary_config "c") CriticalValues.c_bar_values
              ++ map (boundary_config "ct") made2),
             (map (boundary_config "ct") left2).
      cbn [fst snd].
      split; [|split; [|split; [discriminate|exact Hall]]].
      * rewrite Hcalls2, Hw3, Hcalls1, Hw1, <- app_assoc. reflexivity.
      * rewrite <- app_assoc, <- map_app, Hsplit2. reflexivity.
  - exists (map (boundary_config "c") made1),
           (map (boundary_config "c") left1
            ++ map (boundary_config "ct") CriticalValues.c_bar_values).
    cbn [fst snd].
    split; [|split; [|split; [discriminate|exact Hall]]].
    + rewrite Hcalls1, Hw1. reflexivity.
    + rewrite app_assoc, <- map_app, Hsplit1. reflexivity.
Qed.

(** ** The command line *)



(** ** The statistics above a quantile *)

Lemma interpolates_at_any_sorting (sample xs ys : list Q) (q v : Q) :
  order_statistics sample xs -> order_statistics sample ys ->
  interpolates_at xs q v -> interpolates_at ys q v.
Proof.
  intros Hx Hy (lo & hi & Hlo & Hhi & Hv).
  assert (Hlen : length ys = length xs).
  { destruct Hx as [Px _], Hy as [Py _].
    rewrite <- (Permutation_length Px). symmetry.
    apply Permutation_length, Py. }
  unfold interpolates_at. rewrite Hlen.
  destruct (nth_error_defined ys
              (Z.to_nat (Qfloor (inject_Z (Z.of_nat (length xs) - 1) * q))))
    as [lo' Hlo'].
  { rewrite Hlen. apply nth_error_Some. congruence. }
  destruct (nth_error_defined ys
              (Nat.min
                 (S (Z.to_nat (Qfloor (inject_Z (Z.of_nat (length xs) - 1)
                                       * q))))
                 (length xs - 1))) as [hi' Hhi'].
  { rewrite Hlen. apply nth_error_Some. congruence. }
  exists lo', hi'. repeat split; try assumption.
  rewrite Hv.
  rewrite (order_statistic_unique sample xs ys _ lo lo' Hx Hy Hlo Hlo').
  rewrite (order_statistic_unique sample xs ys _ hi hi' Hx Hy Hhi Hhi').
  reflexivity.
Qed.










(** ** The calibration of the power curves *)




(** ** The critical values are ordered and do not depend on the order of
    the sample *)

Lemma sorted_nth_le (xs : list Q) (i j : nat) (a b : Q) :
  StronglySorted Qle xs -> (i <= j)%nat ->
  nth_error xs i = Some a -> nth_error xs j = Some b -> a <= b.
Proof.
  intros Hs Hij Ha Hb.
  destruct (Nat.eq_dec i j) as [->|Hne].
  - assert (a = b) by congruence. subst. apply Qle_refl.
  - destruct (nth_error_split xs j Hb) as (l1 & l2 & -> & Hl1).
    destruct (sorted_split l1 l2 b Hs) as [H1 _].
    rewrite nth_error_app1 in Ha by lia.
    rewrite Forall_forall in H1. apply H1.
    eapply nth_error_In. exact Ha.
Qed.

(** A quantile lies between its two neighbouring order statistics. *)
Lemma interpolates_at_between (xs : list Q) (q v : Q) :
  StronglySorted Qle xs -> 0 <= q -> interpolates_at xs q v ->
  exists lo hi,
    nth_error xs
      (Z.to_nat (Qfloor (inject_Z (Z.of_nat (length xs) - 1) * q)))
      = Some lo /\
    nth_error xs
      (Nat.min
         (S (Z.to_nat (Qfloor (inject_Z (Z.of_nat (length xs) - 1) * q))))
         (length xs - 1)) = Some hi /\
    lo <= v /\ v <= hi.
Proof.
  intros Hs Hq (lo & hi & Hlo & Hhi & Hv).
  exists lo, hi. split; [exact Hlo|]. split; [exact Hhi|].
  assert (Hlohi : lo <= hi).
  { eapply (sorted_nth_le xs); [exact Hs| |exact Hlo|exact Hhi].
    assert (Hj : (Z.to_nat (Qfloor (inject_Z (Z.of_nat (length xs) - 1) * q))
                  < length xs)%nat)
      by (apply nth_error_Some; congruence).
    lia. }
  pose proof (Qfloor_le (inject_Z (Z.of_nat (length xs) - 1) * q)) as Hg0.
  pose proof (Qlt_floor (inject_Z (Z.of_nat (length xs) - 1) * q)) as Hg1.
  rewrite inject_Z_plus in Hg1. change (inject_Z 1) with 1 in Hg1.
  rewrite Hv. split; nra.
Qed.

Lemma interpolates_at_mono (xs : list Q) (q1 q2 v1 v2 : Q) :
  StronglySorted Qle xs -> 0 <= q1 -> q1 <= q2 ->
  interpolates_at xs q1 v1 -> interpolates_at xs q2 v2 -> v1 <= v2.
Proof.
  intros Hs H0 H12 I1 I2.
  assert (H02 : 0 <= q2) by (eapply Qle_trans; eassumption).
  destruct (interpolates_at_between xs q1 v1 Hs H0 I1)
    as (lo1 & hi1 & Hlo1 & Hhi1 & Hl1 & Hu1).
  destruct (interpolates_at_between xs q2 v2 Hs H02 I2)
    as (lo2 & hi2 & Hlo2 & Hhi2 & Hl2 & Hu2).
  destruct I1 as (lo1' & hi1' & Hlo1' & Hhi1' & Hv1).
  destruct I2 as (lo2' & hi2' & Hlo2' & Hhi2' & Hv2).
  cbv zeta in *.
  assert (lo1' = lo1) by congruence. assert (hi1' = hi1) by congruence.
  assert (lo2' = lo2) by congruence. assert (hi2' = hi2) by congruence.
  subst lo1' hi1' lo2' hi2'. clear Hlo1' Hhi1' Hlo2' Hhi2'.
  assert (Hn : (0 < length xs)%nat).
  { assert (H : (Z.to_nat (Qfloor (inject_Z (Z.of_nat (length xs) - 1) * q1))
                  < length xs)%nat)
      by (apply nth_error_Some; congruence).
    lia. }
  assert (HN : 0 <= inject_Z (Z.of_nat (length xs) - 1)).
  { change 0 with (inject_Z 0). rewrite <- Zle_Qle. lia. }
  set (N := inject_Z (Z.of_nat (length xs) - 1)) in *.
  assert (Hh : N * q1 <= N * q2) by nra.
  assert (Hh0 : 0 <= N * q1) by nra.
  assert (Hf0 : (0 <= Qfloor (N * q1))%Z).
  { change 0%Z with (Qfloor 0). apply Qfloor_resp_le, Hh0. }
  pose proof (Qfloor_resp_le _ _ Hh) as Hf.
  destruct (Z.eq_dec (Qfloor (N * q1)) (Qfloor (N * q2))) as [Heq|Hne].
  - rewrite <- Heq in *.
    assert (lo2 = lo1) by congruence. assert (hi2 = hi1) by congruence.
    subst lo2 hi2. rewrite Hv1, Hv2.
    assert (lo1 <= hi1) by (eapply Qle_trans; eassumption).
    nra.
  - assert (Hmid : hi1 <= lo2).
    { eapply (sorted_nth_le xs); [exact Hs| |exact Hhi1|exact Hlo2]. lia. }
    eapply Qle_trans; [exact Hu1|].
    eapply Qle_trans; [exact Hmid|exact Hl2].
Qed.

Lemma interpolates_at_unique (xs : list Q) (q v v' : Q) :
  interpolates_at xs q v -> interpolates_at xs q v' -> v == v'.
Proof.
  intros (lo & hi & Hlo & Hhi & Hv) (lo' & hi' & Hlo' & Hhi' & Hv').
  cbv zeta in *.
  assert (lo' = lo) by congruence. assert (hi' = hi) by congruence.
  subst. rewrite Hv, Hv'. reflexivity.
Qed.

(** What the extractor returns, on the sorted sample. *)
Lemma extractor_interpolates (stats : list Q) (cv_1 cv_5 cv_10 : Q) :
  critical_value_extractor stats = Ok (cv_1, cv_5, cv_10) ->
  stats <> [] /\
  interpolates (np_sort stats) 99 cv_1 /\
  interpolates (np_sort stats) 95 cv_5 /\
  interpolates (np_sort stats) 90 cv_10.
Proof.
  intros H.
  assert (Hne : stats <> []) by (intros ->; discriminate H).
  split; [exact Hne|].
  destruct (np_percentile_interpolates stats 99 Hne) as (v1 & E1 & I1);
    [discriminate|discriminate|].
  destruct (np_percentile_interpolates stats 95 Hne) as (v5 & E5 & I5);
    [discriminate|discriminate|].
  destruct (np_percentile_interpolates stats 90 Hne) as (v10 & E10 & I10);
    [discriminate|discriminate|].
  unfold critical_value_extractor in H. rewrite E1, E5, E10 in H.
  simpl in H. injection H as <- <- <-. auto.
Qed.

(** X1.  The three critical values read off a sample are ordered, the 10%
    value at most the 5% value and that one at most the 1% value, and they
    lie within the sample: some statistic is at most the 10% value and some
    statistic is at least the 1% value. *)
Theorem critical_values_ordered (stats : list Q) (cv_1 cv_5 cv_10 : Q) :
  critical_value_extractor stats = Ok (cv_1, cv_5, cv_10) ->
  cv_10 <= cv_5 /\ cv_5 <= cv_1 /\
  exists smallest largest,
    In smallest stats /\ In largest stats /\
    smallest <= cv_10 /\ cv_1 <= largest.
Proof.
  intros H.
  destruct (extractor_interpolates stats cv_1 cv_5 cv_10 H)
    as (Hne & I1 & I5 & I10).
  pose proof (np_sort_sorted stats) as Hs.
  unfold interpolates in *.
  split; [|split].
  - eapply (interpolates_at_mono (np_sort stats) (90 / 100) (95 / 100));
      try eassumption; apply Qle_bool_iff; reflexivity.
  - eapply (interpolates_at_mono (np_sort stats) (95 / 100) (99 / 100));
      try eassumption; apply Qle_bool_iff; reflexivity.
  - destruct (interpolates_at_between (np_sort stats) (90 / 100) cv_10 Hs)
      as (lo & _ & Hlo & _ & Hl & _);
      [apply Qle_bool_iff; reflexivity|exact I10|].
    destruct (interpolates_at_between (np_sort stats) (99 / 100) cv_1 Hs)
      as (_ & hi & _ & Hhi & _ & Hu);
      [apply Qle_bool_iff; reflexivity|exact I1|].
    exists lo, hi.
    pose proof (Permutation_sym (np_sort_perm stats)) as P.
    split; [eapply Permutation_in; [exact P|eapply nth_error_In, Hlo]|].
    split; [eapply Permutation_in; [exact P|eapply nth_error_In, Hhi]|].
    split; assumption.
Qed.

(** X2.  The critical values depend on the sample as a multiset only: on
    any rearrangement of a sample on which the three percentiles are
    returned they are returned again, with equal values. *)
Theorem critical_values_permutation_invariant
    (stats stats' : list Q) (cv_1 cv_5 cv_10 : Q) :
  Permutation stats stats' ->
  critical_value_extractor stats = Ok (cv_1, cv_5, cv_10) ->
  exists cv_1' cv_5' cv_10',
    critical_value_extractor stats' = Ok (cv_1', cv_5', cv_10') /\
    cv_1' == cv_1 /\ cv_5' == cv_5 /\ cv_10' == cv_10.
Proof.
  intros P H.
  destruct (extractor_interpolates stats cv_1 cv_5 cv_10 H)
    as (Hne & I1 & I5 & I10).
  assert (Hne' : stats' <> []).
  { intros ->. apply Permutation_sym, Permutation_nil in P. contradiction. }
  destruct (np_percentile_interpolates stats' 99 Hne') as (v1 & E1 & J1);
    [discriminate|discriminate|].
  destruct (np_percentile_interpolates stats' 95 Hne') as (v5 & E5 & J5);
    [discriminate|discriminate|].
  destruct (np_percentile_interpolates stats' 90 Hne') as (v10 & E10 & J10);
    [discriminate|discriminate|].
  exists v1, v5, v10. split.
  { unfold critical_value_extractor. rewrite E1, E5, E10. reflexivity. }
  assert (Hos : order_statistics stats' (np_sort stats))
    by (split; [eapply perm_trans; [apply Permutation_sym, P|
                                    apply np_sort_perm]
               |apply np_sort_sorted]).
  pose proof (np_sort_order_statistics stats') as Hos'.
  unfold interpolates in *.
  split; [|split].
  - apply (interpolates_at_unique (np_sort stats') (99 / 100)); [exact J1|].
    exact (interpolates_at_any_sorting stats' _ _ _ _ Hos Hos' I1).
  - apply (interpolates_at_unique (np_sort stats') (95 / 100)); [exact J5|].
    exact (interpolates_at_any_sorting stats' _ _ _ _ Hos Hos' I5).
  - apply (interpolates_at_unique (np_sort stats') (90 / 100)); [exact J10|].
    exact (interpolates_at_any_sorting stats' _ _ _ _ Hos Hos' I10).
Qed.


(** ** The cells of the size table stand alone *)

Lemma rng_determined_for_in {A S} (xs : list A) (body : A -> S -> M S)
    (s : S) :
  (forall x s', rng_determined (body x s')) ->
  rng_determined (for_in xs body s).
Proof.
  intros Hb. revert s. induction xs as [|x xs IH]; intros s; simpl.
  - apply rng_determined_ret.
  - apply rng_determined_bind; [apply Hb|]. intros s'. apply IH.
Qed.

Lemma rng_determined_size_loop (theta alpha : Q) :
  rng_determined (size_loop theta alpha).
Proof.
  unfold size_loop.
  apply rng_determined_bind; [|intros; apply rng_determined_ret].
  apply rng_determined_for_in. intros i rejections.
  unfold size_replication.
  apply rng_determined_bind; [apply rng_determined_call|]. intros y.
  apply rng_determined_bind; [apply rng_determined_call|]. intros result.
  apply rng_determined_ret.
Qed.

(** What a cell reports does not depend on the world it is entered in. *)
Lemma size_cell_outcome (theta alpha : Q) (w1 w2 : world) :
  snd (size_cell theta alpha w1) = snd (size_cell theta alpha w2).
Proof.
  unfold size_cell, bind, np_random_seed.
  apply rng_determined_size_loop. reflexivity.
Qed.

Lemma size_cell_unit_interval (theta alpha : Q) (w : world) (size : Q) :
  snd (size_cell theta alpha w) = Ok size -> 0 <= size <= 1.
Proof.
  intros H. pose proof (size_cell_counts theta alpha w) as Hc.
  destruct (size_cell theta alpha w) as [w' [size'|e]]; simpl in H;
    [|discriminate].
  injection H as ->. destruct Hc as (results & _ & Hlen & ->).
  pose proof (count_rejections_bounds results) as [Hlo Hhi].
  rewrite Hlen in Hhi. change (Z.of_nat 1000) with Table1.n_sims in Hhi.
  assert (Hpos : 0 < inject_Z Table1.n_sims) by reflexivity.
  split.
  - apply Qle_shift_div_l; [exact Hpos|].
    rewrite Qmult_0_l. change 0 with (inject_Z 0). rewrite <- Zle_Qle.
    exact Hlo.
  - apply Qle_shift_div_r; [exact Hpos|].
    rewrite Qmult_1_l. rewrite <- Zle_Qle. exact Hhi.
Qed.

(** The sizes a row collects are those of its cells, each run alone. *)
Lemma size_columns_cells (theta : Q) (alphas acc sizes : list Q)
    (w w' : world) :
  for_in alphas (size_column theta) acc w = (w', Ok sizes) ->
  exists new,
    sizes = acc ++ new /\
    Forall2 (fun alpha size =>
               forall w0, snd (size_cell theta alpha w0) = Ok size)
      alphas new.
Proof.
  revert acc w. induction alphas as [|alpha alphas IH]; intros acc w H.
  - simpl in H. unfold ret in H. injection H as _ <-.
    exists []. rewrite app_nil_r. split; [reflexivity|constructor].
  - cbn [for_in] in H. unfold bind at 1, size_column at 1, bind at 1 in H.
    destruct (size_cell theta alpha w) as [w1 [size|e]] eqn:E;
      [|discriminate].
    unfold ret at 1 in H.
    destruct (IH _ _ H) as (new & -> & Hnew).
    exists (size :: new). rewrite <- app_assoc. split; [reflexivity|].
    constructor; [|exact Hnew].
    intros w0. rewrite (size_cell_outcome theta alpha w0 w), E. reflexivity.
Qed.

Lemma size_row_cells_standalone (theta : Q) (w w' : world) :
  size_row theta tt w = (w', Ok tt) ->
  exists size_1 size_2 size_3,
    stdout w' = stdout w ++ [SizeRow theta size_1 size_2 size_3] /\
    (forall w0, snd (size_cell theta 1 w0) = Ok size_1) /\
    (forall w0, snd (size_cell theta 3 w0) = Ok size_2) /\
    (forall w0, snd (size_cell theta 5 w0) = Ok size_3).
Proof.
  unfold size_row, bind at 1.
  pose proof (size_columns_keep_stdout (stdout w) theta Table1.alpha_values
                [] w eq_refl) as Hout.
  destruct (for_in Table1.alpha_values (size_column theta) [] w)
    as [w1 [sizes|e]] eqn:E; [|discriminate].
  simpl in Hout.
  destruct (size_columns_cells theta _ _ _ _ _ E) as (new & -> & Hnew).
  change Table1.alpha_values with [1; 3; 5] in Hnew.
  inversion Hnew as [|a1 s1 l1 n1 H1 Hnew1]; subst.
  inversion Hnew1 as [|a2 s2 l2 n2 H2 Hnew2]; subst.
  inversion Hnew2 as [|a3 s3 l3 n3 H3 Hnew3]; subst.
  inversion Hnew3; subst.
  unfold bind, lift, print. simpl.
  intros H. injection H as <-. simpl.
  exists s1, s2, s3. rewrite Hout. auto.
Qed.

(** X3.  A row of the size table that completes prints one line, with its
    [theta] and three sizes, and each size is the outcome of its cell
    ([alpha] = 1, 3, 5) run alone from any world whatever: what a cell
    reports does not depend on the cells run before it. *)
Theorem size_row_reports_its_cells (theta : Q) (w w' : world) :
  size_row theta tt w = (w', Ok tt) ->
  exists size_1 size_2 size_3,
    stdout w' = stdout w ++ [SizeRow theta size_1 size_2 size_3] /\
    (forall w0, snd (size_cell theta 1 w0) = Ok size_1) /\
    (forall w0, snd (size_cell theta 3 w0) = Ok size_2) /\
    (forall w0, snd (size_cell theta 5 w0) = Ok size_3).
Proof. apply size_row_cells_standalone. Qed.

Lemma for_in_ext {A S} (xs : list A) (body body' : A -> S -> M S) (s : S)
    (w : world) :
  (forall x s' w', body x s' w' = body' x s' w') ->
  for_in xs body s w = for_in xs body' s w.
Proof.
  intros Hb. revert s w. induction xs as [|x xs IH]; intros s w; simpl.
  - reflexivity.
  - unfold bind. rewrite Hb.
    destruct (body' x s w) as [w1 [s1|e]]; [apply IH|reflexivity].
Qed.

(** X4.  When the generator, at a [theta], does the same whatever [alpha]
    it is given, the three sizes of the row of that [theta] are one and the
    same value: each cell replays the same innovations through the same
    computation. *)
Theorem size_row_columns_equal (theta : Q) (w w' : world) :
  (forall alpha alpha',
      simulate_near_integrated_ma Table1.T Table1.c theta alpha 0.0 1.0 =
      simulate_near_integrated_ma Table1.T Table1.c theta alpha' 0.0 1.0) ->
  size_row theta tt w = (w', Ok tt) ->
  exists size, stdout w' = stdout w ++ [SizeRow theta size size size].
Proof.
  intros Hgen Hrow.
  destruct (size_row_cells_standalone theta w w' Hrow)
    as (s1 & s2 & s3 & Hout & H1 & H3 & H5).
  assert (Hcell : forall alpha, size_cell theta alpha w = size_cell theta 1 w).
  { intros alpha. unfold size_cell, size_loop, bind.
    destruct (np_random_seed 42 w) as [w0 [[]|e]]; [|reflexivity].
    rewrite (for_in_ext _ (size_replication theta alpha)
               (size_replication theta 1)); [reflexivity|].
    intros i rejections w1. unfold size_replication.
    rewrite (Hgen alpha 1). reflexivity. }
  specialize (H1 w). specialize (H3 w). specialize (H5 w).
  rewrite Hcell in H3, H5.
  assert (s2 = s1) by congruence. assert (s3 = s1) by congruence.
  subst. exists s1. exact Hout.
Qed.


(** ** The size table completes when its collaborators do *)

Lemma for_in_returns {A S} (xs : list A) (body : A -> S -> M S) (s : S)
    (w : world) :
  (forall x s' w', exists w'' s'', body x s' w' = (w'', Ok s'')) ->
  exists w' s', for_in xs body s w = (w', Ok s').
Proof.
  intros Hb. revert s w. induction xs as [|x xs IH]; intros s w; simpl.
  - unfold ret. eauto.
  - unfold bind. destruct (Hb x s w) as (w1 & s1 & ->). apply IH.
Qed.

Lemma size_cell_returns (theta alpha : Q) (w : world) :
  never_raises
    (simulate_near_integrated_ma Table1.T Table1.c theta alpha 0.0 1.0) ->
  (forall y, never_raises (modified_kpss_test y Table1.c_bar false)) ->
  exists w' size, size_cell theta alpha w = (w', Ok size).
Proof.
  intros Hg Ht. unfold size_cell, size_loop, bind at 1 2, np_random_seed.
  match goal with
  | |- context [for_in ?xs ?body ?s ?w0] =>
      destruct (for_in_returns xs body s w0) as (w1 & rejections & ->)
  end.
  - intros i rejections w1. unfold size_replication, bind.
    destruct (call_returns _ w1 Hg) as (w2 & y & ->).
    destruct (call_returns _ w2 (Ht y)) as (w3 & result & ->).
    unfold ret. eauto.
  - unfold ret. eauto.
Qed.

Lemma size_row_returns (theta : Q) (w : world) :
  (forall alpha,
      never_raises
        (simulate_near_integrated_ma Table1.T Table1.c theta alpha 0.0 1.0)) ->
  (forall y, never_raises (modified_kpss_test y Table1.c_bar false)) ->
  exists w', size_row theta tt w = (w', Ok tt).
Proof.
  intros Hg Ht. unfold size_row, bind at 1.
  destruct (for_in_returns Table1.alpha_values (size_column theta) [] w)
    as (w1 & sizes & E).
  { intros alpha sizes w1. unfold size_column, bind.
    destruct (size_cell_returns theta alpha w1 (Hg alpha) Ht)
      as (w2 & size & ->).
    unfold ret. eauto. }
  rewrite E.
  destruct (size_columns_cells theta _ _ _ _ _ E) as (new & -> & Hnew).
  change Table1.alpha_values with [1; 3; 5] in Hnew.
  inversion Hnew as [|a1 s1 l1 n1 H1 Hnew1]; subst.
  inversion Hnew1 as [|a2 s2 l2 n2 H2 Hnew2]; subst.
  inversion Hnew2 as [|a3 s3 l3 n3 H3 Hnew3]; subst.
  inversion Hnew3; subst.
  unfold bind, lift, print. simpl. eauto.
Qed.

(** A completed row is in range. *)
Lemma size_row_in_range_printed (theta : Q) (w w' : world) :
  In theta Table1.theta_values ->
  size_row theta tt w = (w', Ok tt) ->
  exists row, stdout w' = stdout w ++ [row] /\
              size_row_in_range row /\ size_row_thetas [row] = [theta].
Proof.
  intros Hin Hrow.
  destruct (size_row_cells_standalone theta w w' Hrow)
    as (s1 & s2 & s3 & Hout & H1 & H3 & H5).
  exists (SizeRow theta s1 s2 s3). split; [exact Hout|].
  split; [|reflexivity].
  split; [exact Hin|].
  split; [|split].
  - exact (size_cell_unit_interval theta 1 w s1 (H1 w)).
  - exact (size_cell_unit_interval theta 3 w s2 (H3 w)).
  - exact (size_cell_unit_interval theta 5 w s3 (H5 w)).
Qed.

Lemma size_rows_return (thetas : list Q) (w : world) :
  (forall theta alpha,
      never_raises
        (simulate_near_integrated_ma Table1.T Table1.c theta alpha 0.0 1.0)) ->
  (forall y, never_raises (modified_kpss_test y Table1.c_bar false)) ->
  Forall (fun theta => In theta Table1.theta_values) thetas ->
  exists w' rows,
    for_in thetas size_row tt w = (w', Ok tt) /\
    stdout w' = stdout w ++ rows /\
    Forall size_row_in_range rows /\
    size_row_thetas rows = thetas /\
    length rows = length thetas.
Proof.
  intros Hg Ht Hin. revert w.
  induction Hin as [|theta thetas Htheta _ IH]; intros w; simpl.
  - exists w, []. unfold ret. rewrite app_nil_r. auto.
  - unfold bind.
    destruct (size_row_returns theta w (Hg theta) Ht) as (w1 & E).
    rewrite E.
    destruct (size_row_in_range_printed theta w w1 Htheta E)
      as (row & Hout & Hrange & Hth).
    destruct (IH w1) as (w2 & rows & E2 & Hout2 & Hrange2 & Hth2 & Hlen2).
    exists w2, (row :: rows). split; [exact E2|].
    split; [rewrite Hout2, Hout, <- app_assoc; reflexivity|].
    split; [constructor; assumption|].
    split; [|simpl; congruence].
    change (row :: rows) with ([row] ++ rows).
    rewrite size_row_thetas_app, Hth, Hth2. reflexivity.
Qed.

(** X5.  When the generator and the test never raise, the size table
    returns: it prints its heading, then three rows, for [theta] = 0.0, 0.6
    and -0.6 in that order, each with sizes in [0, 1], then the reference
    lines of the paper. *)
Theorem size_table_completes (w : world) :
  (forall theta alpha,
      never_raises
        (simulate_near_integrated_ma Table1.T Table1.c theta alpha 0.0 1.0)) ->
  (forall y, never_raises (modified_kpss_test y Table1.c_bar false)) ->
  exists w' rows,
    simulate_table1_sizes w = (w', Ok tt) /\
    stdout w' = stdout w ++ table1_heading ++ rows ++ table1_reference /\
    length rows = 3%nat /\
    size_row_thetas rows = [0.0; 0.6; -0.6] /\
    Forall size_row_in_range rows.
Proof.
  intros Hg Ht.
  unfold simulate_table1_sizes, bind. rewrite print_all_spec.
  cbv beta iota.
  match goal with
  | |- context [for_in Table1.theta_values size_row tt ?w0] =>
      destruct (size_rows_return Table1.theta_values w0 Hg Ht)
        as (w1 & rows & E & Hout & Hrange & Hth & Hlen)
  end.
  { apply Forall_forall. auto. }
  rewrite E. cbv beta iota. rewrite print_all_spec.
  cbn [stdout] in Hout.
  eexists _, rows. split; [reflexivity|]. cbn [stdout].
  split; [rewrite Hout, <- !app_assoc; reflexivity|].
  split; [exact Hlen|]. split; [exact Hth|exact Hrange].
Qed.


(** ** What the size table prints and leaves behind, whatever its outcome *)

Lemma size_row_error_keeps_stdout (theta : Q) (w w' : world) (e : error) :
  size_row theta tt w = (w', Err e) -> stdout w' = stdout w.
Proof.
  unfold size_row, bind at 1.
  pose proof (size_columns_keep_stdout (stdout w) theta Table1.alpha_values
                [] w eq_refl) as Hout.
  destruct (for_in Table1.alpha_values (size_column theta) [] w)
    as [w1 [sizes|e1]]; simpl in Hout.
  - unfold bind, lift, print.
    destruct (getitem sizes 0) as [size_1|e1];
      [|intros H; injection H as <- _; exact Hout].
    destruct (getitem sizes 1) as [size_2|e1];
      [|intros H; injection H as <- _; exact Hout].
    destruct (getitem sizes 2) as [size_3|e1];
      [|intros H; injection H as <- _; exact Hout].
    discriminate.
  - intros H. injection H as <- _. exact Hout.
Qed.

Lemma size_row_keeps_range (theta : Q) :
  In theta Table1.theta_values ->
  preserves (fun w => Forall size_row_in_range (stdout w))
    (size_row theta tt).
Proof.
  intros Hin w Hw.
  destruct (size_row theta tt w) as [w' [[]|e]] eqn:E; simpl.
  - destruct (size_row_in_range_printed theta w w' Hin E)
      as (row & -> & Hrange & _).
    apply Forall_app. split; [exact Hw|]. constructor; [exact Hrange|].
    constructor.
  - rewrite (size_row_error_keeps_stdout theta w w' e E). exact Hw.
Qed.

Lemma print_all_keeps (P : line -> Prop) (ls : list line) :
  Forall P ls -> preserves (fun w => Forall P (stdout w)) (print_all ls).
Proof.
  intros Hls w Hw. rewrite print_all_spec. simpl.
  apply Forall_app. split; assumption.
Qed.

(** X6.  Whatever its outcome, the size table prints no size row out of
    range: if every size row on standard output is for a [theta] of the
    table and shows frequencies in [0, 1] before the report, so it is after
    it, also when a collaborator raised on the way. *)
Theorem size_rows_always_in_range (w : world) :
  Forall size_row_in_range (stdout w) ->
  Forall size_row_in_range (stdout (fst (simulate_table1_sizes w))).
Proof.
  revert w.
  change (preserves (fun w => Forall size_row_in_range (stdout w))
            simulate_table1_sizes).
  unfold simulate_table1_sizes.
  apply preserves_bind.
  { apply print_all_keeps. unfold table1_heading.
    repeat (constructor; [exact I|]). constructor. }
  intros _. apply preserves_bind.
  - assert (H : forall thetas,
               Forall (fun theta => In theta Table1.theta_values) thetas ->
               preserves (fun w => Forall size_row_in_range (stdout w))
                 (for_in thetas size_row tt)).
    { induction 1 as [|theta thetas Htheta _ IH]; simpl.
      - apply preserves_ret.
      - apply preserves_bind; [apply size_row_keeps_range, Htheta|].
        intros []. exact IH. }
    apply H. apply Forall_forall. auto.
  - intros _. apply print_all_keeps. unfold table1_reference.
    repeat (constructor; [exact I|]). constructor.
Qed.

Lemma call_keeps_seed {A} (s : Z) (p : Draws A) :
  preserves (fun w => rs_seed (rng w) = s) (call p).
Proof.
  intros w H. unfold call.
  pose proof (exec_stream p (rng w)) as (_ & Hs & _).
  destruct (exec p (rng w)) as [[xs g] r]. simpl in *. congruence.
Qed.

Lemma size_cell_seeded (theta alpha : Q) (w : world) :
  rs_seed (rng (fst (size_cell theta alpha w))) = 42%Z.
Proof. apply (size_cell_replaying theta alpha w). Qed.

(** A loop over a non-empty sequence leaves what each of its passes
    leaves. *)
Lemma for_in_establishes {A S} (P : world -> Prop) (xs : list A)
    (body : A -> S -> M S) (s : S) (w : world) :
  xs <> [] -> (forall x s' w', P (fst (body x s' w'))) ->
  P (fst (for_in xs body s w)).
Proof.
  intros Hne Hb. destruct xs as [|x xs]; [congruence|]. clear Hne.
  revert x s w. induction xs as [|x' xs IH]; intros x s w.
  - simpl. unfold bind. specialize (Hb x s w).
    destruct (body x s w) as [w1 [s1|e]]; exact Hb.
  - change (for_in (x :: x' :: xs) body s w)
      with ((s' <- body x s ;; for_in (x' :: xs) body s') w).
    unfold bind at 1. specialize (Hb x s w).
    destruct (body x s w) as [w1 [s1|e]]; [apply IH|exact Hb].
Qed.

(** X7.  The size table leaves the global generator under seed 42,
    whatever the state it was entered in and whether it returns or raises:
    the random state of the caller is not restored. *)
Theorem size_table_leaves_seed_42 (w : world) :
  rs_seed (rng (fst (simulate_table1_sizes w))) = 42%Z.
Proof.
  unfold simulate_table1_sizes, bind at 1. rewrite print_all_spec.
  match goal with
  | |- context [(?m ;; print_all table1_reference) ?w0] =>
      assert (H : rs_seed (rng (fst (m w0))) = 42%Z)
  end.
  { apply (for_in_establishes (fun w => rs_seed (rng w) = 42%Z));
      [discriminate|].
    intros theta [] w1. unfold size_row, bind at 1.
    assert (H : rs_seed
                  (rng (fst (for_in Table1.alpha_values (size_column theta)
                               [] w1))) = 42%Z).
    { apply (for_in_establishes (fun w => rs_seed (rng w) = 42%Z));
        [discriminate|].
      intros alpha sizes w2. unfold size_column, bind.
      pose proof (size_cell_seeded theta alpha w2) as Hc.
      destruct (size_cell theta alpha w2) as [w3 [size|e]]; exact Hc. }
    destruct (for_in Table1.alpha_values (size_column theta) [] w1)
      as [w2 [sizes|e]]; simpl in H; [|exact H].
    unfold bind, lift, print.
    destruct (getitem sizes 0) as [size_1|e]; [|exact H].
    destruct (getitem sizes 1) as [size_2|e]; [|exact H].
    destruct (getitem sizes 2) as [size_3|e]; exact H. }
  unfold bind at 1.
  match goal with
  | |- context [for_in Table1.theta_values size_row tt ?w0] =>
      destruct (for_in Table1.theta_values size_row tt w0)
        as [w1 [[]|e]]; simpl in H
  end.
  - rewrite print_all_spec. exact H.
  - exact H.
Qed.


(** ** What the critical-values report prints *)

Lemma extractor_ordered (stats : list Q) (cv_1 cv_5 cv_10 : Q) :
  critical_value_extractor stats = Ok (cv_1, cv_5, cv_10) ->
  cv_10 <= cv_5 /\ cv_5 <= cv_1.
Proof.
  intros H.
  destruct (extractor_interpolates stats cv_1 cv_5 cv_10 H)
    as (Hne & I1 & I5 & I10).
  pose proof (np_sort_sorted stats) as Hs.
  unfold interpolates in *.
  split.
  - eapply (interpolates_at_mono (np_sort stats) (90 / 100) (95 / 100));
      try eassumption; apply Qle_bool_iff; reflexivity.
  - eapply (interpolates_at_mono (np_sort stats) (95 / 100) (99 / 100));
      try eassumption; apply Qle_bool_iff; reflexivity.
Qed.

Lemma extractor_returns (stats : list Q) :
  stats <> [] ->
  exists cv_1 cv_5 cv_10,
    critical_value_extractor stats = Ok (cv_1, cv_5, cv_10).
Proof.
  intros Hne.
  destruct (np_percentile_interpolates stats 99 Hne) as (v1 & E1 & _);
    [discriminate|discriminate|].
  destruct (np_percentile_interpolates stats 95 Hne) as (v5 & E5 & _);
    [discriminate|discriminate|].
  destruct (np_percentile_interpolates stats 90 Hne) as (v10 & E10 & _);
    [discriminate|discriminate|].
  exists v1, v5, v10.
  unfold critical_value_extractor. rewrite E1, E5, E10. reflexivity.
Qed.

Lemma simulate_critical_values_keeps_stdout (out : list line)
    (cfg : SimulationConfig) :
  preserves (fun w => stdout w = out) (simulate_critical_values cfg).
Proof.
  unfold simulate_critical_values.
  apply preserves_bind; [intros w H; exact H|]. intros _.
  destruct (valid_config cfg); [|intros w H; exact H].
  apply preserves_bind; [intros w H; exact H|]. intros _.
  generalize (Z.to_nat (cfg_n_replications cfg)).
  induction n as [|n IH]; cbn [replications].
  - apply preserves_ret.
  - apply preserves_bind; [apply call_keeps_stdout|]. intros path.
    apply preserves_bind; [apply call_keeps_stdout|]. intros stat.
    apply preserves_bind; [exact IH|]. intros; apply preserves_ret.
Qed.

(** A row either prints its ordered line and returns, or prints nothing
    and raises. *)
Lemma critical_value_row_stdout (detrend : string) (c_bar : Q) (w : world) :
  (exists cv_1 cv_5 cv_10,
      snd (critical_value_row detrend c_bar tt w) = Ok tt /\
      stdout (fst (critical_value_row detrend c_bar tt w)) =
        stdout w ++ [CvRow c_bar cv_1 cv_5 cv_10] /\
      cv_10 <= cv_5 /\ cv_5 <= cv_1) \/
  (exists e,
      snd (critical_value_row detrend c_bar tt w) = Err e /\
      stdout (fst (critical_value_row detrend c_bar tt w)) = stdout w).
Proof.
  unfold critical_value_row, bind at 1 3 5 7.
  match goal with
  | |- context [simulate_critical_values ?cfg w] =>
      pose proof (simulate_critical_values_keeps_stdout (stdout w) cfg w
                    eq_refl) as Hout;
      destruct (simulate_critical_values cfg w) as [w1 [stats|e]]
  end; cbn [fst] in Hout.
  - unfold bind, lift.
    destruct (critical_value_extractor stats) as [[[cv_1 cv_5] cv_10]|e]
      eqn:E.
    + left. exists cv_1, cv_5, cv_10. unfold print. cbn [fst snd stdout].
      split; [reflexivity|]. split; [rewrite Hout; reflexivity|].
      exact (extractor_ordered stats cv_1 cv_5 cv_10 E).
    + right. exists e. cbn [fst snd]. split; [reflexivity|exact Hout].
  - right. exists e. cbn [fst snd]. split; [reflexivity|exact Hout].
Qed.

(** X8.  Whatever its outcome, the critical-values report prints ordered
    rows only: if every row of critical values on standard output has its
    10% value at most its 5% value and that one at most its 1% value before
    the report, so it is after it. *)
Theorem critical_value_rows_always_ordered (w : world) :
  Forall cv_row_ordered (stdout w) ->
  Forall cv_row_ordered
    (stdout (fst (simulate_asymptotic_critical_values w))).
Proof.
  revert w.
  change (preserves (fun w => Forall cv_row_ordered (stdout w))
            simulate_asymptotic_critical_values).
  assert (Hrows : forall detrend,
             preserves (fun w => Forall cv_row_ordered (stdout w))
               (for_in CriticalValues.c_bar_values
                  (critical_value_row detrend) tt)).
  { intros detrend. apply preserves_for_in. intros c_bar [] w Hw.
    destruct (critical_value_row_stdout detrend c_bar w)
      as [(cv_1 & cv_5 & cv_10 & _ & -> & Hord)|(e & _ & ->)];
      [|exact Hw].
    apply Forall_app. split; [exact Hw|].
    constructor; [exact Hord|constructor]. }
  unfold simulate_asymptotic_critical_values.
  apply preserves_bind.
  { apply print_all_keeps. repeat (constructor; [exact I|]). constructor. }
  intros _. apply preserves_bind; [apply Hrows|].
  intros _. apply preserves_bind.
  { apply print_all_keeps. repeat (constructor; [exact I|]). constructor. }
  intros _. apply preserves_bind; [apply Hrows|].
  intros _. apply print_all_keeps.
  repeat (constructor; [exact I|]). constructor.
Qed.

Lemma cv_row_c_bars_app (ls ls' : list line) :
  cv_row_c_bars (ls ++ ls') = cv_row_c_bars ls ++ cv_row_c_bars ls'.
Proof.
  induction ls as [|l ls IH]; simpl; [reflexivity|].
  destruct l; simpl; congruence.
Qed.

Lemma simulate_critical_values_returns (cfg : SimulationConfig) (w : world) :
  valid_config cfg = true ->
  never_raises (dgp_generator cfg) ->
  (forall path, never_raises (statistic_evaluator cfg path)) ->
  exists w' stats,
    simulate_critical_values cfg w = (w', Ok stats) /\
    stats <> [] /\ stdout w' = stdout w.
Proof.
  intros V Hg He.
  assert (Hok : exists stats, snd (simulate_critical_values cfg w) = Ok stats).
  { unfold simulate_critical_values, bind at 1, log_call. rewrite V.
    unfold bind at 1, np_random_seed.
    match goal with
    | |- context [replications ?n cfg ?w0] =>
        destruct (replications_return n cfg w0 Hg He) as (w' & stats & ->)
    end.
    exists stats. reflexivity. }
  destruct Hok as (stats & Hok).
  pose proof (simulate_critical_values_length cfg w stats Hok) as Hlen.
  pose proof (simulate_critical_values_keeps_stdout (stdout w) cfg w eq_refl)
    as Hout.
  destruct (simulate_critical_values cfg w) as [w' r].
  cbn [fst snd] in *. subst r.
  exists w', stats. split; [reflexivity|]. split; [|exact Hout].
  intros ->. cbn [length] in Hlen.
  unfold valid_config in V.
  apply andb_prop in V. destruct V as [V _].
  apply andb_prop in V. destruct V as [V _].
  apply Z.ltb_lt in V. lia.
Qed.

Lemma critical_value_row_returns (detrend : string) (c_bar : Q) (w : world) :
  detrend = "c" \/ detrend = "ct" ->
  (forall cfg, never_raises (dgp_generator cfg)) ->
  (forall cfg path, never_raises (statistic_evaluator cfg path)) ->
  exists w' cv_1 cv_5 cv_10,
    critical_value_row detrend c_bar tt w = (w', Ok tt) /\
    stdout w' = stdout w ++ [CvRow c_bar cv_1 cv_5 cv_10].
Proof.
  intros Hd Hg He. unfold critical_value_row, bind at 1.
  match goal with
  | |- context [simulate_critical_values ?cfg w] =>
      destruct (simulate_critical_values_returns cfg w)
        as (w1 & stats & E & Hne & Hout);
        [destruct Hd as [->| ->]; reflexivity|apply Hg|apply He|];
      rewrite E
  end.
  unfold bind, lift.
  destruct (extractor_returns stats Hne) as (cv_1 & cv_5 & cv_10 & ->).
  unfold print. eexists _, cv_1, cv_5, cv_10.
  split; [reflexivity|]. cbn [stdout]. rewrite Hout. reflexivity.
Qed.

Lemma critical_value_rows_return (detrend : string) (c_bars : list Q)
    (w : world) :
  detrend = "c" \/ detrend = "ct" ->
  (forall cfg, never_raises (dgp_generator cfg)) ->
  (forall cfg path, never_raises (statistic_evaluator cfg path)) ->
  exists w' rows,
    for_in c_bars (critical_value_row detrend) tt w = (w', Ok tt) /\
    stdout w' = stdout w ++ rows /\
    cv_row_c_bars rows = c_bars.
Proof.
  intros Hd Hg He. revert w.
  induction c_bars as [|c_bar c_bars IH]; intros w; cbn [for_in].
  - exists w, []. unfold ret. rewrite app_nil_r. auto.
  - unfold bind.
    destruct (critical_value_row_returns detrend c_bar w Hd Hg He)
      as (w1 & cv_1 & cv_5 & cv_10 & -> & Hout).
    destruct (IH w1) as (w2 & rows & -> & Hout2 & Hrows).
    exists w2, (CvRow c_bar cv_1 cv_5 cv_10 :: rows).
    split; [reflexivity|].
    split; [rewrite Hout2, Hout, <- app_assoc; reflexivity|].
    cbn [cv_row_c_bars]. rewrite Hrows. reflexivity.
Qed.

(** X9.  When the generator and the evaluator of the replication loop never
    raise, the critical-values report returns, and the rows it prints are
    those for [c_bar] = 5, 7, 10, 13, 15, 20 in that order, once for the
    level case and once more for the trend case: no percentile fails on a
    sample the loop returns. *)
Theorem critical_values_report_completes (w : world) :
  (forall cfg, never_raises (dgp_generator cfg)) ->
  (forall cfg path, never_raises (statistic_evaluator cfg path)) ->
  exists w',
    simulate_asymptotic_critical_values w = (w', Ok tt) /\
    cv_row_c_bars (stdout w') =
      cv_row_c_bars (stdout w)
      ++ CriticalValues.c_bar_values ++ CriticalValues.c_bar_values.
Proof.
  intros Hg He.
  unfold simulate_asymptotic_critical_values, bind.
  rewrite print_all_spec. cbv beta iota.
  match goal with
  | |- context [for_in CriticalValues.c_bar_values (critical_value_row "c")
                  tt ?w0] =>
      destruct (critical_value_rows_return "c" CriticalValues.c_bar_values
                  w0 (or_introl eq_refl) Hg He)
        as (w1 & rows1 & E1 & Hout1 & Hrows1)
  end.
  rewrite E1. cbv beta iota. rewrite print_all_spec. cbv beta iota.
  match goal with
  | |- context [for_in CriticalValues.c_bar_values (critical_value_row "ct")
                  tt ?w0] =>
      destruct (critical_value_rows_return "ct" CriticalValues.c_bar_values
                  w0 (or_intror eq_refl) Hg He)
        as (w2 & rows2 & E2 & Hout2 & Hrows2)
  end.
  rewrite E2. cbv beta iota. rewrite print_all_spec.
  eexists. split; [reflexivity|].
  cbn [stdout] in *. rewrite Hout2, Hout1.
  rewrite !cv_row_c_bars_app, Hrows1, Hrows2.
  cbn [cv_row_c_bars]. rewrite !app_nil_r, <- app_assoc. reflexivity.
Qed.


(** ** What the power-curve report prints *)

Lemma rejection_rate_unit (stats : list Q) (cv : Q) :
  stats <> [] -> 0 <= rejection_rate stats cv <= 1.
Proof.
  intros Hne. unfold rejection_rate.
  pose proof (filter_length_bound (exceeds cv) stats) as Hle.
  assert (Hpos : 0 < inject_Z (Z.of_nat (length stats))).
  { change 0 with (inject_Z 0). rewrite <- Zlt_Qlt.
    destruct stats; [congruence|simpl; lia]. }
  split.
  - apply Qle_shift_div_l; [exact Hpos|].
    rewrite Qmult_0_l. change 0 with (inject_Z 0). rewrite <- Zle_Qle. lia.
  - apply Qle_shift_div_r; [exact Hpos|].
    rewrite Qmult_1_l. rewrite <- Zle_Qle. lia.
Qed.

Lemma sweep_returns (c_bar alpha : Q) (detrend : string)
    (n_replications n_steps seed : Z) (cv : Q) (c_values : list Q) :
  (forall c, valid_config
               {| cfg_c := c; cfg_c_bar := c_bar; cfg_alpha := alpha;
                  cfg_detrend := detrend;
                  cfg_n_replications := n_replications;
                  cfg_n_steps := n_steps; cfg_seed := seed |} = true) ->
  (forall cfg, never_raises (dgp_generator cfg)) ->
  (forall cfg path, never_raises (statistic_evaluator cfg path)) ->
  forall acc w,
  exists w' tail,
    for_in c_values
      (sweep_point c_bar alpha detrend n_replications n_steps seed cv) acc w
      = (w', Ok (acc ++ tail)) /\
    stdout w' = stdout w /\
    length tail = length c_values /\
    Forall (fun rate => 0 <= rate <= 1) tail.
Proof.
  intros V Hg He.
  induction c_values as [|c c_values IH]; intros acc w; cbn [for_in].
  - exists w, []. unfold ret. rewrite app_nil_r. auto.
  - unfold bind at 1, sweep_point at 1, bind at 1.
    match goal with
    | |- context [simulate_critical_values ?cfg w] =>
        destruct (simulate_critical_values_returns cfg w (V c) (Hg cfg)
                    (He cfg))
          as (w1 & stats & -> & Hne & Hout)
    end.
    unfold ret at 1.
    destruct (IH (acc ++ [rejection_rate stats cv]) w1)
      as (w2 & tail & -> & Hout2 & Hlen & Hr).
    exists w2, (rejection_rate stats cv :: tail).
    rewrite <- app_assoc. split; [reflexivity|].
    split; [congruence|]. split; [simpl; congruence|].
    constructor; [apply rejection_rate_unit, Hne|exact Hr].
Qed.

Lemma simulate_power_and_size_returns (c_values : list Q)
    (c_bar alpha nominal_power : Q) (detrend : string)
    (n_replications n_steps seed : Z) (w : world) :
  (forall c, valid_config
               {| cfg_c := c; cfg_c_bar := c_bar; cfg_alpha := alpha;
                  cfg_detrend := detrend;
                  cfg_n_replications := n_replications;
                  cfg_n_steps := n_steps; cfg_seed := seed |} = true) ->
  0 <= nominal_power -> nominal_power <= 1 ->
  (forall cfg, never_raises (dgp_generator cfg)) ->
  (forall cfg path, never_raises (statistic_evaluator cfg path)) ->
  exists w' rates cv,
    simulate_power_and_size c_values c_bar alpha nominal_power detrend
      n_replications n_steps seed w = (w', Ok (rates, cv)) /\
    stdout w' = stdout w /\
    length rates = length c_values /\
    Forall (fun rate => 0 <= rate <= 1) rates.
Proof.
  intros V Hn0 Hn1 Hg He. unfold simulate_power_and_size, bind at 1.
  match goal with
  | |- context [simulate_critical_values ?cfg w] =>
      destruct (simulate_critical_values_returns cfg w (V reference_c)
                  (Hg cfg) (He cfg))
        as (w1 & reference & -> & Hne & Hout)
  end.
  unfold bind at 1, lift.
  destruct (np_quantile_interpolates reference (1 - nominal_power) Hne)
    as (cv & -> & _); [lra|lra|].
  unfold bind at 1.
  destruct (sweep_returns c_bar alpha detrend n_replications n_steps seed cv
              c_values V Hg He [] w1)
    as (w2 & rates & -> & Hout2 & Hlen & Hr).
  unfold ret. exists w2, rates, cv. cbn [app].
  split; [reflexivity|]. split; [congruence|]. split; assumption.
Qed.

Lemma print_rates_spec (rows : list (Q * Q)) (w : world) :
  for_in rows print_rate tt w =
  ({| rng := rng w; drawn := drawn w;
      stdout := stdout w ++ map (fun row => RateRow (fst row) (snd row)) rows;
      calls := calls w |}, Ok tt).
Proof.
  revert w. induction rows as [|row rows IH]; intros w; cbn [for_in map].
  - unfold ret. rewrite app_nil_r. destruct w; reflexivity.
  - unfold bind, print_rate, print. rewrite IH. cbn [rng drawn stdout calls].
    rewrite <- app_assoc. reflexivity.
Qed.

Lemma rate_row_cs_app (ls ls' : list line) :
  rate_row_cs (ls ++ ls') = rate_row_cs ls ++ rate_row_cs ls'.
Proof.
  induction ls as [|l ls IH]; simpl; [reflexivity|].
  destruct l; simpl; congruence.
Qed.

(** [zip] pairs the grid with the rates, value by value. *)
Lemma rate_rows_of_zip (cs rates : list Q) :
  length rates = length cs ->
  rate_row_cs (map (fun row => RateRow (fst row) (snd row))
                 (combine cs rates)) = cs.
Proof.
  revert rates. induction cs as [|c cs IH]; intros [|rate rates] H;
    try discriminate; [reflexivity|].
  cbn [combine map rate_row_cs fst snd]. f_equal. apply IH.
  simpl in H. congruence.
Qed.

Lemma power_curve_returns (alpha : Q) (w : world) :
  (forall cfg, never_raises (dgp_generator cfg)) ->
  (forall cfg path, never_raises (statistic_evaluator cfg path)) ->
  exists w' printed,
    power_curve alpha tt w = (w', Ok tt) /\
    stdout w' = stdout w ++ AlphaHeading alpha :: printed /\
    rate_row_cs printed = PowerCurves.c_values /\
    Forall rate_row_in_range printed.
Proof.
  intros Hg He. unfold power_curve, bind, print. cbv beta iota.
  match goal with
  | |- context [simulate_power_and_size ?cs ?cb ?a ?np ?d ?n ?st ?sd ?w0] =>
      destruct (simulate_power_and_size_returns cs cb a np d n st sd w0)
        as (w1 & rates & cv & -> & Hout & Hlen & Hr);
        [intros c; reflexivity|discriminate|discriminate|exact Hg|exact He|]
  end.
  cbv beta iota. rewrite print_rates_spec.
  cbn [stdout] in *.
  eexists _, (Rule "-" 40 :: Header ["c"; "Rejection Rate"] :: Rule "-" 25
              :: map (fun row => RateRow (fst row) (snd row))
                   (combine PowerCurves.c_values rates)).
  split; [reflexivity|]. cbn [stdout]. split.
  { rewrite Hout, <- !app_assoc. reflexivity. }
  split.
  { cbn [rate_row_cs]. apply rate_rows_of_zip, Hlen. }
  repeat (constructor; [exact I|]).
  apply Forall_forall. intros l Hl.
  apply in_map_iff in Hl. destruct Hl as ([c rate] & <- & Hin).
  cbn [rate_row_in_range fst snd]. split.
  - eapply in_combine_l, Hin.
  - apply in_combine_r in Hin.
    exact (proj1 (Forall_forall _ rates) Hr rate Hin).
Qed.

Lemma power_curves_return (alphas : list Q) (w : world) :
  (forall cfg, never_raises (dgp_generator cfg)) ->
  (forall cfg path, never_raises (statistic_evaluator cfg path)) ->
  exists w' printed,
    for_in alphas power_curve tt w = (w', Ok tt) /\
    stdout w' = stdout w ++ printed /\
    rate_row_cs printed =
      concat (map (fun _ => PowerCurves.c_values) alphas) /\
    Forall rate_row_in_range printed.
Proof.
  intros Hg He. revert w.
  induction alphas as [|alpha alphas IH]; intros w; cbn [for_in].
  - exists w, []. unfold ret. rewrite app_nil_r. auto.
  - unfold bind.
    destruct (power_curve_returns alpha w Hg He)
      as (w1 & printed & -> & Hout & Hcs & Hr).
    destruct (IH w1) as (w2 & printed2 & -> & Hout2 & Hcs2 & Hr2).
    exists w2, ((AlphaHeading alpha :: printed) ++ printed2).
    split; [reflexivity|].
    split; [rewrite Hout2, Hout, <- app_assoc; reflexivity|].
    split.
    + rewrite rate_row_cs_app. cbn [rate_row_cs map concat].
      rewrite Hcs, Hcs2. reflexivity.
    + apply Forall_app. split; [|exact Hr2].
      constructor; [exact I|exact Hr].
Qed.

(** X10.  When the generator and the evaluator of the replication loop
    never raise, the power-curve report returns, and the rate rows it
    prints are, for each of its three values of [alpha], one row per grid
    value 0, 1, ..., 10 in that order, each with a rate in [0, 1]: the
    calibrator is the one modelled from the specification. *)
Theorem power_curves_report_completes (w : world) :
  (forall cfg, never_raises (dgp_generator cfg)) ->
  (forall cfg path, never_raises (statistic_evaluator cfg path)) ->
  exists w' printed,
    simulate_power_curves w = (w', Ok tt) /\
    stdout w' = stdout w ++ printed /\
    rate_row_cs printed =
      PowerCurves.c_values ++ PowerCurves.c_values ++ PowerCurves.c_values /\
    Forall rate_row_in_range printed.
Proof.
  intros Hg He. unfold simulate_power_curves, bind.
  rewrite print_all_spec. cbv beta iota.
  match goal with
  | |- context [for_in PowerCurves.alpha_values power_curve tt ?w0] =>
      destruct (power_curves_return PowerCurves.alpha_values w0 Hg He)
        as (w1 & printed & -> & Hout & Hcs & Hr)
  end.
  cbn [stdout] in Hout.
  match type of Hout with
  | _ = (_ ++ ?heading) ++ _ => exists w1, (heading ++ printed)
  end.
  split; [reflexivity|].
  split; [rewrite Hout, <- app_assoc; reflexivity|].
  split.
  - rewrite rate_row_cs_app, Hcs. cbn [rate_row_cs].
    cbn [PowerCurves.alpha_values map concat app].
    rewrite app_nil_r. reflexivity.
  - apply Forall_app. split; [|exact Hr].
    repeat (constructor; [exact I|]). constructor.
Qed.


End Harness.

(** ** The theorems on the sample collaborators *)

Lemma critical_value_extractor_percentiles_witness :
  np_arange 1 101 <> [] /\
  exists cv_1 cv_5 cv_10,
    critical_value_extractor (np_arange 1 101) = Ok (cv_1, cv_5, cv_10) /\
    (forall xs, order_statistics (np_arange 1 101) xs ->
       interpolates xs 99 cv_1 /\ interpolates xs 95 cv_5 /\
       interpolates xs 90 cv_10) /\
    (np_arange 1 101 = np_arange 1 101 -> cv_5 == 95.05).
Proof.
  assert (H : np_arange 1 101 <> [])
    by (intro H; vm_compute in H; discriminate H).
  split; [exact H|].
  exact (critical_value_extractor_percentiles (np_arange 1 101) H).
Defined.

Lemma empirical_size_in_unit_interval_witness :
  exists w' empirical_size,
    size_cell counting_stream one_draw_ma threshold_test 0.0 1 initial_world
      = (w', Ok empirical_size) /\
    (0 <= empirical_size <= 1 /\
     exists rejections : Z,
       (0 <= rejections <= Table1.n_sims)%Z /\
       empirical_size == inject_Z rejections * (1 / inject_Z Table1.n_sims)).
Proof.
  eexists _, _. split; [vm_compute; reflexivity|].
  eapply (empirical_size_in_unit_interval counting_stream one_draw_ma
            threshold_test 0.0 1 initial_world).
  vm_compute. reflexivity.
Defined.


Lemma reseed_replays_innovations_witness :
  let draws_1 :=
    drawn_since initial_world
      (fst (size_cell counting_stream one_draw_ma threshold_test 0.6 1
              initial_world)) in
  let draws_2 :=
    drawn_since initial_world
      (fst (size_cell counting_stream one_draw_ma threshold_test 0.6 3
              initial_world)) in
  length draws_1 = 1000%nat /\ length draws_2 = 1000%nat /\
  draws_1 = draws_2.
Proof.
  intros draws_1 draws_2.
  assert (H1 : length draws_1 = 1000%nat) by (vm_compute; reflexivity).
  assert (H2 : length draws_2 = 1000%nat) by (vm_compute; reflexivity).
  split; [exact H1|]. split; [exact H2|].
  pose proof (reseed_replays_innovations counting_stream one_draw_ma
                threshold_test 0.6 1 3 initial_world initial_world) as H.
  cbv zeta in H. destruct H as (_ & _ & _ & _ & H).
  apply H. fold draws_1 draws_2. congruence.
Defined.

Lemma all_cells_replay_one_stream_witness :
  let cell_1 := (0.0, 1) in
  let cell_2 := (-0.6, 5) in
  let draws_1 :=
    drawn_since initial_world
      (fst (size_cell counting_stream one_draw_ma threshold_test
              (fst cell_1) (snd cell_1) initial_world)) in
  let draws_2 :=
    drawn_since initial_world
      (fst (size_cell counting_stream one_draw_ma threshold_test
              (fst cell_2) (snd cell_2) initial_world)) in
  In cell_1 table_cells /\ In cell_2 table_cells /\
  length table_cells = 9%nat /\
  (exists k_1 k_2,
      draws_1 = map (counting_stream 42) (seq 0 k_1) /\
      draws_2 = map (counting_stream 42) (seq 0 k_2)) /\
  (forall i x y,
      nth_error draws_1 i = Some x -> nth_error draws_2 i = Some y ->
      x = y) /\
  (length draws_1 = length draws_2 -> draws_1 = draws_2).
Proof.
  intros cell_1 cell_2 draws_1 draws_2.
  assert (H1 : In cell_1 table_cells) by (left; reflexivity).
  assert (H2 : In cell_2 table_cells)
    by (do 8 right; left; reflexivity).
  split; [exact H1|]. split; [exact H2|].
  exact (all_cells_replay_one_stream counting_stream one_draw_ma
           threshold_test cell_1 cell_2 initial_world initial_world H1 H2).
Defined.





Lemma replication_loop_reproducible_witness :
  let cfg :=
    {| cfg_c := 10; cfg_c_bar := 10; cfg_alpha := 1; cfg_detrend := "c";
       cfg_n_replications := 1000; cfg_n_steps := 500; cfg_seed := 42 |} in
  let run := simulate_critical_values counting_stream one_draw_path
               first_value cfg in
  exists stats,
    snd (run initial_world) = Ok stats /\
    snd (run (fst (run initial_world))) = Ok stats /\
    Z.of_nat (length stats) = 1000%Z.
Proof.
  intros cfg run.
  destruct (replication_loop_reproducible counting_stream one_draw_path
              first_value cfg initial_world (fst (run initial_world)))
    as (Hsame & Hlen & Hreturns).
  destruct Hreturns as [stats Hstats].
  - reflexivity.
  - intros g. eexists. reflexivity.
  - intros path g. eexists. reflexivity.
  - exists stats. split; [exact Hstats|]. split.
    + fold run in Hsame. rewrite <- Hsame. exact Hstats.
    + exact (Hlen stats Hstats).
Defined.


(** ** Further properties on the sample collaborators *)

Lemma critical_values_ordered_witness :
  exists cv_1 cv_5 cv_10,
    critical_value_extractor (np_arange 1 101) = Ok (cv_1, cv_5, cv_10) /\
    cv_10 <= cv_5 /\ cv_5 <= cv_1 /\
    exists smallest largest,
      In smallest (np_arange 1 101) /\ In largest (np_arange 1 101) /\
      smallest <= cv_10 /\ cv_1 <= largest.
Proof.
  eexists _, _, _. split; [vm_compute; reflexivity|].
  apply (critical_values_ordered (np_arange 1 101)).
  vm_compute. reflexivity.
Defined.

Lemma critical_values_permutation_invariant_witness :
  exists cv_1 cv_5 cv_10 cv_1' cv_5' cv_10',
    critical_value_extractor (rev (np_arange 1 101))
      = Ok (cv_1, cv_5, cv_10) /\
    critical_value_extractor (np_arange 1 101) = Ok (cv_1', cv_5', cv_10') /\
    cv_1' == cv_1 /\ cv_5' == cv_5 /\ cv_10' == cv_10.
Proof.
  eexists _, _, _.
  edestruct (critical_values_permutation_invariant
               (rev (np_arange 1 101)) (np_arange 1 101))
    as (cv_1' & cv_5' & cv_10' & H);
    [apply Permutation_sym, Permutation_rev|vm_compute; reflexivity|].
  exists cv_1', cv_5', cv_10'.
  split; [vm_compute; reflexivity|exact H].
Defined.

Lemma size_row_reports_its_cells_witness :
  let row := size_row counting_stream one_draw_ma threshold_test 0.6 tt in
  let cell := size_cell counting_stream one_draw_ma threshold_test 0.6 in
  snd (row initial_world) = Ok tt /\
  exists size_1 size_2 size_3,
    stdout (fst (row initial_world))
      = stdout initial_world ++ [SizeRow 0.6 size_1 size_2 size_3] /\
    (forall w0, snd (cell 1 w0) = Ok size_1) /\
    (forall w0, snd (cell 3 w0) = Ok size_2) /\
    (forall w0, snd (cell 5 w0) = Ok size_3).
Proof.
  intros row cell.
  assert (H : row initial_world = (fst (row initial_world), Ok tt))
    by (vm_compute; reflexivity).
  split; [rewrite H; reflexivity|].
  exact (size_row_reports_its_cells counting_stream one_draw_ma
           threshold_test 0.6 initial_world (fst (row initial_world)) H).
Defined.

Lemma size_row_columns_equal_witness :
  let row := size_row counting_stream plain_draw_ma threshold_test 0.6 tt in
  snd (row initial_world) = Ok tt /\
  exists size,
    stdout (fst (row initial_world))
      = stdout initial_world ++ [SizeRow 0.6 size size size].
Proof.
  intros row.
  assert (H : row initial_world = (fst (row initial_world), Ok tt))
    by (vm_compute; reflexivity).
  split; [rewrite H; reflexivity|].
  apply (size_row_columns_equal counting_stream plain_draw_ma threshold_test
           0.6 initial_world (fst (row initial_world))).
  - intros alpha alpha'. reflexivity.
  - exact H.
Defined.

Lemma size_table_completes_witness :
  exists w' rows,
    simulate_table1_sizes counting_stream one_draw_ma threshold_test
      initial_world = (w', Ok tt) /\
    stdout w'
      = stdout initial_world ++ table1_heading ++ rows ++ table1_reference /\
    length rows = 3%nat /\
    size_row_thetas rows = [0.0; 0.6; -0.6] /\
    Forall size_row_in_range rows.
Proof.
  apply (size_table_completes counting_stream one_draw_ma threshold_test
           initial_world).
  - intros theta alpha g. eexists. reflexivity.
  - intros y g. eexists. reflexivity.
Defined.

Lemma size_rows_always_in_range_witness :
  Forall size_row_in_range (stdout initial_world) /\
  Forall size_row_in_range
    (stdout (fst (simulate_table1_sizes counting_stream one_draw_ma
                    degenerate_test initial_world))).
Proof.
  assert (H : Forall size_row_in_range (stdout initial_world))
    by constructor.
  split; [exact H|].
  exact (size_rows_always_in_range counting_stream one_draw_ma
           degenerate_test initial_world H).
Defined.

Lemma critical_value_rows_always_ordered_witness :
  Forall cv_row_ordered (stdout initial_world) /\
  Forall cv_row_ordered
    (stdout (fst (simulate_asymptotic_critical_values counting_stream
                    one_draw_path first_value initial_world))).
Proof.
  assert (H : Forall cv_row_ordered (stdout initial_world))
    by constructor.
  split; [exact H|].
  exact (critical_value_rows_always_ordered counting_stream one_draw_path
           first_value initial_world H).
Defined.

Lemma critical_values_report_completes_witness :
  exists w',
    simulate_asymptotic_critical_values counting_stream one_draw_path
      first_value initial_world = (w', Ok tt) /\
    cv_row_c_bars (stdout w') =
      cv_row_c_bars (stdout initial_world)
      ++ CriticalValues.c_bar_values ++ CriticalValues.c_bar_values.
Proof.
  apply (critical_values_report_completes counting_stream one_draw_path
           first_value initial_world).
  - intros cfg g. eexists. reflexivity.
  - intros cfg path g. eexists. reflexivity.
Defined.

Lemma power_curves_report_completes_witness :
  exists w' printed,
    simulate_power_curves counting_stream one_draw_path first_value 0
      initial_world = (w', Ok tt) /\
    stdout w' = stdout initial_world ++ printed /\
    rate_row_cs printed =
      PowerCurves.c_values ++ PowerCurves.c_values ++ PowerCurves.c_values /\
    Forall rate_row_in_range printed.
Proof.
  apply (power_curves_report_completes counting_stream one_draw_path
           first_value 0 initial_world).
  - intros cfg g. eexists. reflexivity.
  - intros cfg path g. eexists. reflexivity.
Defined.
